(** * Reasoning-Process: the markdown extractors and consistency checks

    A shallow embedding of the parsing helpers of [tests/conftest.py]
    ([extract_code_blocks], [extract_checklists]) and of the checks built on
    them ([tests/test_consistency.py], [tests/test_checklist_coverage.py],
    [tests/test_markdown_syntax.py], [tests/test_code_examples.py]), with
    the properties the specification states about them and further
    properties read off the code.

    A Python [str] is modelled by the list of its code points, one [ascii]
    per code point, which covers texts in the range U+0000..U+00FF.  The
    character classes ([str.isspace], the [\s] and [\w] of [re] on [str]
    patterns, [str.lower]) follow CPython's tables on that range. *)

From Stdlib Require Import ZArith Ascii String List Bool Lia.
From stdpp Require Import base decidable countable list strings gmap.
Import ListNotations.

#[local] Open Scope list_scope.

(** ** Python strings *)

Module Py.

Abbreviation str := (list ascii).

(** A string literal of the source. *)
Definition lit (s : string) : str := list_ascii_of_string s.

(** [ord(c)] *)
Definition ord (c : ascii) : N := N_of_ascii c.

Definition between (lo hi : N) (c : ascii) : bool :=
  (N.leb lo (ord c) && N.leb (ord c) hi)%bool.

Definition is_char (k : N) (c : ascii) : bool := N.eqb (ord c) k.

Definition nl : ascii := ascii_of_N 10.
Definition is_nl (c : ascii) : bool := is_char 10 c.

(** [str.isspace] on one character, also the class [\s]: TAB..CR,
    FS..US, SPACE, NEL and NBSP. *)
Definition is_space (c : ascii) : bool :=
  (between 9 13 c || between 28 32 c || is_char 133 c || is_char 160 c)%bool.

Definition is_lower_az (c : ascii) : bool := between 97 122 c.

(** The class [\w]: alphanumeric characters and the underscore. *)
Definition is_word (c : ascii) : bool :=
  (between 48 57 c || between 65 90 c || is_char 95 c || between 97 122 c
   || is_char 170 c || between 178 179 c || is_char 181 c
   || between 185 186 c || between 188 190 c
   || between 192 214 c || between 216 246 c || between 248 255 c)%bool.

(** [str.lower] on one character: A..Z and the upper-case letters of
    U+00C0..U+00DE (U+00D7 is the multiplication sign) move up by 32. *)
Definition lower_char (c : ascii) : ascii :=
  if (between 65 90 c || (between 192 222 c && negb (is_char 215 c)))%bool
  then ascii_of_N (ord c + 32) else c.

Definition lower (s : str) : str := map lower_char s.

Fixpoint drop_while (p : ascii -> bool) (s : str) : str :=
  match s with
  | [] => []
  | c :: s' => if p c then drop_while p s' else s
  end.

Fixpoint take_while (p : ascii -> bool) (s : str) : str :=
  match s with
  | [] => []
  | c :: s' => if p c then c :: take_while p s' else []
  end.

Definition lstrip (s : str) : str := drop_while is_space s.
Definition rstrip (s : str) : str := rev (drop_while is_space (rev s)).
(** [s.strip()] *)
Definition strip (s : str) : str := rstrip (lstrip s).

(** [s.startswith(p)] *)
Fixpoint startswith (p s : str) : bool :=
  match p, s with
  | [], _ => true
  | _ :: _, [] => false
  | a :: p', b :: s' => if Ascii.eqb a b then startswith p' s' else false
  end.

(** [s.split('\n')]: never empty, a text without newline is one line. *)
Fixpoint split_nl (s : str) : list str :=
  match s with
  | [] => [[]]
  | c :: s' =>
      if is_nl c then [] :: split_nl s'
      else match split_nl s' with
           | l :: ls => (c :: l) :: ls
           | [] => [[c]]
           end
  end.

(** ['\n'.join(ls)] *)
Fixpoint join_nl (ls : list str) : str :=
  match ls with
  | [] => []
  | [l] => l
  | l :: ls' => l ++ nl :: join_nl ls'
  end.

(** [a == b] on strings. *)
Definition str_eqb (a b : str) : bool :=
  if List.list_eq_dec Ascii.ascii_dec a b then true else false.

(** The truth value of a string or list: non-empty. *)
Definition truthy {A} (l : list A) : bool :=
  match l with [] => false | _ => true end.

Definition no_nl (l : str) : Prop := Forall (fun c => is_nl c = false) l.

End Py.

Import Py.

Definition fence : str := lit "```".

(** ** [extract_code_blocks] (tests/conftest.py) *)

Module CodeBlocks.

(** An emitted block: the dict with keys ['language'], ['code'] (joined)
    and ['line_number']. *)
Record CodeBlock := {
  language : str;
  code : str;
  line_number : nat
}.

(** The block being filled: the same dict while ['code'] is still the list
    of the lines seen so far. *)
Record OpenBlock := {
  ob_language : str;
  ob_code : list str;
  ob_line_number : nat
}.

(** The locals of the loop. *)
Record State := {
  code_blocks : list CodeBlock;
  in_code_block : bool;
  current_block : option OpenBlock;
  start_line : nat
}.

Definition init : State :=
  {| code_blocks := []; in_code_block := false;
     current_block := None; start_line := 0 |}.

(** [code_fence_pattern.match(line)]: the pattern is three backticks at
    the start of the line followed by a captured, greedy run of [\w]; group 1
    is the longest run of word characters after the backticks. *)
Definition code_fence_match (line : str) : option str :=
  if startswith fence line then Some (take_while is_word (skipn 3 line))
  else None.

Definition close_block (b : OpenBlock) : CodeBlock :=
  {| language := ob_language b;
     code := join_nl (ob_code b);
     line_number := ob_line_number b |}.

(** One iteration of the loop body on line [i]. [None] is the [TypeError]
    of subscripting [current_block] while it is [None]. *)
Definition step (st : State) (i : nat) (line : str) : option State :=
  if negb (in_code_block st) then
    match code_fence_match line with
    | Some lang =>
        Some {| code_blocks := code_blocks st;
                in_code_block := true;
                current_block :=
                  Some {| ob_language := lang; ob_code := [];
                          ob_line_number := i |};
                start_line := i |}
    | None => Some st
    end
  else
    if startswith fence line then
      match current_block st with
      | Some b =>
          Some {| code_blocks := code_blocks st ++ [close_block b];
                  in_code_block := false;
                  current_block := None;
                  start_line := start_line st |}
      | None => None
      end
    else
      match current_block st with
      | Some b =>
          Some {| code_blocks := code_blocks st;
                  in_code_block := true;
                  current_block :=
                    Some {| ob_language := ob_language b;
                            ob_code := ob_code b ++ [line];
                            ob_line_number := ob_line_number b |};
                  start_line := start_line st |}
      | None => None
      end.

(** [for i, line in enumerate(lines, i): ...] *)
Fixpoint scan (st : State) (i : nat) (lines : list str) : option State :=
  match lines with
  | [] => Some st
  | line :: rest =>
      match step st i line with
      | Some st' => scan st' (S i) rest
      | None => None
      end
  end.

Definition extract_lines (lines : list str) : option (list CodeBlock) :=
  match scan init 1 lines with
  | Some st => Some (code_blocks st)
  | None => None
  end.

Definition extract_code_blocks (content : str) : option (list CodeBlock) :=
  extract_lines (split_nl content).

(** *** Documents made of fenced blocks

    A document of N fence pairs, as lines: before each block some lines
    outside any block, then the opening fence, the body lines and the
    closing fence; after the last block, more lines outside. *)
Record Segment := {
  seg_before : list str;
  seg_open : str;
  seg_body : list str;
  seg_close : str
}.

(** The line starts with three backticks, or not. *)
Definition is_fence (l : str) : Prop := startswith fence l = true.
Definition not_fence (l : str) : Prop := startswith fence l = false.

Definition seg_lines (s : Segment) : list str :=
  seg_before s ++ seg_open s :: seg_body s ++ [seg_close s].

Definition doc_lines (segs : list Segment) (after : list str) : list str :=
  concat (map seg_lines segs) ++ after.

Definition well_formed (s : Segment) : Prop :=
  Forall not_fence (seg_before s) /\ is_fence (seg_open s) /\
  Forall not_fence (seg_body s) /\ is_fence (seg_close s).

(** The tag of an opening fence line. *)
Definition tag_of (open : str) : str := take_while is_word (skipn 3 open).

(** The blocks expected from the segments, the first line being line [i]. *)
Fixpoint expected (i : nat) (segs : list Segment) : list CodeBlock :=
  match segs with
  | [] => []
  | s :: rest =>
      {| language := tag_of (seg_open s);
         code := join_nl (seg_body s);
         line_number := i + length (seg_before s) |}
      :: expected (i + length (seg_lines s)) rest
  end.

(** The loop keeps [current_block] set exactly while [in_code_block]. *)
Definition consistent (st : State) : Prop :=
  in_code_block st = true -> current_block st <> None.

(** The scan is not inside a block. *)
Definition outside (st : State) : Prop := in_code_block st = false.

End CodeBlocks.

(** *** The closing fence as the specification words it

    "A line that is exactly a closing fence": after trimming, three or more
    backticks and nothing else. *)
Module CodeBlocksSpec.
Import CodeBlocks.

Definition is_backtick (c : ascii) : bool := is_char 96 c.

Definition spec_closing_fence (line : str) : bool :=
  (Nat.leb 3 (length (strip line)) && forallb is_backtick (strip line))%bool.

(** The line is appended verbatim to the body of the open block, nothing
    is emitted and the block stays open. *)
Definition appended (st : State) (line : str) (st' : State) : Prop :=
  in_code_block st' = true /\
  code_blocks st' = code_blocks st /\
  exists b b', current_block st = Some b /\ current_block st' = Some b' /\
    ob_code b' = ob_code b ++ [line] /\
    ob_language b' = ob_language b /\ ob_line_number b' = ob_line_number b.

(** The open block is emitted with the lines seen so far, and closed. *)
Definition closed (st : State) (st' : State) : Prop :=
  in_code_block st' = false /\ current_block st' = None /\
  exists b, current_block st = Some b /\
    code_blocks st' = code_blocks st ++ [close_block b].

(** The claim of the specification about one line read inside a block. *)
Definition spec_inside_rule (st : State) (i : nat) (line : str) : Prop :=
  exists st', step st i line = Some st' /\
    if spec_closing_fence line then closed st st' else appended st line st'.

(** A state inside a block opened on line 1 with no tag, holding one body
    line ["a"]. *)
Definition inside_a : State :=
  {| code_blocks := []; in_code_block := true;
     current_block :=
       Some {| ob_language := []; ob_code := [lit "a"];
               ob_line_number := 1 |};
     start_line := 1 |}.

(** Two blocks, the second one empty. *)
Definition two_blocks : list Segment :=
  [ {| seg_before := [lit "# Title"; lit ""];
       seg_open := lit "```python"; seg_body := [lit "x = 1"; lit "``y``"];
       seg_close := lit "```" |};
    {| seg_before := [lit "text"];
       seg_open := lit "```"; seg_body := [];
       seg_close := lit "```" |} ].

(** One closed block and a line after it. *)
Definition closed_then_open : list str :=
  [lit "intro"; lit "```sh"; lit "ls"; lit "```"; lit "more"].

End CodeBlocksSpec.

(** ** Regular expressions of the source, as backtracking matchers *)

Module Re.

Definition is_hash (c : ascii) : bool := is_char 35 c.
Definition is_dash (c : ascii) : bool := is_char 45 c.

(** [(.+)] with nothing after it: the longest non-empty run of characters
    other than newline; the result is the group and the rest of the
    subject. *)
Definition dot_plus (s : str) : option (str * str) :=
  match take_while (fun c => negb (is_nl c)) s with
  | [] => None
  | g => Some (g, drop_while (fun c => negb (is_nl c)) s)
  end.

(** Greedy [\s*] followed by [k]: take a whitespace character when there
    is one and go on; give it back when the rest does not match. *)
Fixpoint ws_star {A} (k : str -> option A) (s : str) : option A :=
  match s with
  | c :: s' =>
      if is_space c then
        match ws_star k s' with
        | Some r => Some r
        | None => k s
        end
      else k s
  | [] => k []
  end.

(** [\s+] followed by [k]. *)
Definition ws_plus {A} (k : str -> option A) (s : str) : option A :=
  match s with
  | c :: s' => if is_space c then ws_star k s' else None
  | [] => None
  end.

(** Greedy [#{0,n}] followed by [k]. *)
Fixpoint hashes_upto {A} (n : nat) (k : str -> option A) (s : str)
  : option A :=
  match n with
  | O => k s
  | S n' =>
      match s with
      | c :: s' =>
          if is_hash c then
            match hashes_upto n' k s' with
            | Some r => Some r
            | None => k s
            end
          else k s
      | [] => k []
      end
  end.

End Re.

(** ** [extract_checklists] (tests/conftest.py) *)

Module Checklists.
Import Re.

Record ChecklistGroup := {
  section : str;
  items : list str;
  line_number : nat
}.

Record State := {
  checklists : list ChecklistGroup;
  current_section : str;
  current_checklist : option ChecklistGroup
}.

Definition init : State :=
  {| checklists := []; current_section := lit "Unknown";
     current_checklist := None |}.

(** [section_pattern.match(line)]: one to six [#], then [\s+], then the
    group [(.+)]. The result is group 1. *)
Definition section_match (line : str) : option str :=
  match line with
  | c :: s' =>
      if is_hash c then
        option_map fst (hashes_upto 5 (ws_plus dot_plus) s')
      else None
  | [] => None
  end.

(** The character class [[ x]] under [re.IGNORECASE]. *)
Definition is_box_mark (c : ascii) : bool :=
  (is_char 32 c || is_char 120 c || is_char 88 c)%bool.

Definition box_then_text (s : str) : option (str * str) :=
  match s with
  | o :: m :: c :: s' =>
      if (is_char 91 o && is_box_mark m && is_char 93 c)%bool
      then ws_star dot_plus s' else None
  | _ => None
  end.

(** [checklist_pattern.match(line)]: a dash, [\s*], the bracketed mark,
    [\s*], then the group [(.+)]. The result is group 1. *)
Definition checklist_match (line : str) : option str :=
  match line with
  | c :: s' =>
      if is_dash c then option_map fst (ws_star box_then_text s') else None
  | [] => None
  end.

(** [if current_checklist and current_checklist['items']:
        checklists.append(current_checklist)] *)
Definition flush (st : State) : list ChecklistGroup :=
  match current_checklist st with
  | Some g => if truthy (items g) then checklists st ++ [g] else checklists st
  | None => checklists st
  end.

(** One iteration of the loop body on line [i]. *)
Definition step (st : State) (i : nat) (line : str) : State :=
  match section_match line with
  | Some g =>
      {| checklists := flush st;
         current_section := strip g;
         current_checklist := None |}
  | None =>
      match checklist_match line with
      | Some t =>
          let cur :=
            match current_checklist st with
            | Some g => g
            | None => {| section := current_section st; items := [];
                         line_number := i |}
            end in
          {| checklists := checklists st;
             current_section := current_section st;
             current_checklist :=
               Some {| section := section cur;
                       items := items cur ++ [strip t];
                       line_number := line_number cur |} |}
      | None =>
          match current_checklist st with
          | Some _ =>
              if (truthy (strip line) && negb (startswith (lit "-") line))%bool
              then {| checklists := flush st;
                      current_section := current_section st;
                      current_checklist := None |}
              else st
          | None => st
          end
      end
  end.

Fixpoint scan (st : State) (i : nat) (lines : list str) : State :=
  match lines with
  | [] => st
  | line :: rest => scan (step st i line) (S i) rest
  end.

Definition extract_lines (lines : list str) : list ChecklistGroup :=
  flush (scan init 1 lines).

Definition extract_checklists (content : str) : list ChecklistGroup :=
  extract_lines (split_nl content).

(** The open group of a state, as the list of the groups it would emit. *)
Definition open_group (st : State) : list ChecklistGroup :=
  match current_checklist st with
  | Some g => [g]
  | None => []
  end.

(** *** Predicates on lines, groups and states *)

Definition nonempty_groups (gs : list ChecklistGroup) : Prop :=
  Forall (fun g => items g <> []) gs.

(** The lines [ls] are checklist items with the captured texts [ts]. *)
Definition matches_items (ls : list str) (ts : list str) : Prop :=
  Forall2 (fun l t => checklist_match l = Some t) ls ts.

(** The line is not a checklist item. *)
Definition not_item (line : str) : Prop := checklist_match line = None.

(** The group [g] is either still open after [cl], or already emitted. *)
Definition pending (cl : list ChecklistGroup) (g : ChecklistGroup)
    (st : State) : Prop :=
  (checklists st = cl /\ current_checklist st = Some g) \/
  (checklists st = cl ++ [g] /\ current_checklist st = None).


(** A document with a heading-like line and two checkbox lines inside a
    fenced code block. *)
Definition fenced_doc : str :=
  join_nl [lit "# Real"; lit "```"; lit "- [ ] a"; lit "# fake";
           lit "- [x] b"; lit "```"].


End Checklists.

(** ** [test_no_duplicate_checklist_items] (tests/test_checklist_coverage.py) *)

Module Duplicates.
Import Checklists.

Definition str_eq_dec : forall a b : str, {a = b} + {a <> b} :=
  List.list_eq_dec Ascii.ascii_dec.

(** A [collections.Counter]: the keys in the order of their first
    insertion, each with its count. *)
Definition Counter := list (str * nat).

(** [counter[k] += 1] *)
Fixpoint counter_add (k : str) (m : Counter) : Counter :=
  match m with
  | [] => [(k, 1)]
  | (k', n) :: m' =>
      if str_eq_dec k k' then (k', S n) :: m'
      else (k', n) :: counter_add k m'
  end.

(** [Counter(iterable)] *)
Definition counter_of (l : list str) : Counter :=
  fold_left (fun m k => counter_add k m) l [].

(** [item.lower().strip()] *)
Definition norm (item : str) : str := strip (lower item).

(** An entry of the [duplicates] list. *)
Record Duplicate := {
  dup_section : str;
  dup_item : str;
  dup_count : nat
}.

Definition group_duplicates (g : ChecklistGroup) : list Duplicate :=
  flat_map (fun kn : str * nat =>
              if Nat.ltb 1 (snd kn)
              then [ {| dup_section := section g; dup_item := fst kn;
                        dup_count := snd kn |} ]
              else [])
           (counter_of (map norm (items g))).

Definition find_duplicates (gs : list ChecklistGroup) : list Duplicate :=
  flat_map group_duplicates gs.

(** The check passes when the assertion [len(duplicates) == 0] holds. *)
Definition no_duplicates_check (gs : list ChecklistGroup) : bool :=
  Nat.eqb (length (find_duplicates gs)) 0.

Definition test_no_duplicate_checklist_items (content : str) : bool :=
  no_duplicates_check (extract_checklists content).

(** Two items of the group at different positions with the same
    normalised text. *)
Definition has_duplicate_pair (g : ChecklistGroup) : Prop :=
  exists i j a b, i < j /\
    nth_error (items g) i = Some a /\ nth_error (items g) j = Some b /\
    norm a = norm b.

(** [counter[k]], 0 for a missing key. *)
Fixpoint count_of (k : str) (m : Counter) : nat :=
  match m with
  | [] => 0
  | (k', n) :: m' => if str_eq_dec k k' then n else count_of k m'
  end.

(** The counter of [l]: distinct keys, the keys are the elements of [l],
    and each count is the number of occurrences. *)
Definition counts (m : Counter) (l : list str) : Prop :=
  NoDup (map fst m) /\
  (forall k, In k (map fst m) <-> In k l) /\
  (forall k, count_of k m = count_occ str_eq_dec l k).

(** Three variants of one item, in case and in trailing whitespace. *)
Definition variants : ChecklistGroup :=
  {| section := lit "Review";
     items := [lit "Check input"; lit "check input"; lit "Check input "];
     line_number := 2 |}.

End Duplicates.

(** ** [test_link_format_valid] (tests/test_markdown_syntax.py) *)

Module Links.

Definition is_lbracket (c : ascii) : bool := is_char 91 c.
Definition is_rbracket (c : ascii) : bool := is_char 93 c.
Definition is_lparen (c : ascii) : bool := is_char 40 c.
Definition is_rparen (c : ascii) : bool := is_char 41 c.

Definition not_rbracket (c : ascii) : bool := negb (is_rbracket c).
Definition not_rparen (c : ascii) : bool := negb (is_rparen c).

(** [link_pattern] at the start of [s]: an opening bracket, the group of
    all characters up to the next closing bracket, that bracket, an opening
    parenthesis, the group of all characters up to the next closing
    parenthesis, that parenthesis. Each class excludes the delimiter that
    follows it, so the greedy run is the only candidate. The result is
    (group 1, group 2, length of the match). *)
Definition link_match_at (s : str) : option (str * str * nat) :=
  match s with
  | o :: s1 =>
      if is_lbracket o then
        match drop_while not_rbracket s1 with
        | _ :: p :: s2 =>
            if is_lparen p then
              match drop_while not_rparen s2 with
              | _ :: _ =>
                  let text := take_while not_rbracket s1 in
                  let url := take_while not_rparen s2 in
                  Some (text, url, length text + length url + 4)
              | [] => None
              end
            else None
        | _ => None
        end
      else None
  | [] => None
  end.

(** [link_pattern.finditer(content)]: the matches from left to right,
    without overlap. [skip] counts the characters of the last match that
    are still to be passed. *)
Fixpoint finditer_from (skip : nat) (s : str) : list (str * str) :=
  match s with
  | [] => []
  | _ :: s' =>
      match skip with
      | S k => finditer_from k s'
      | O =>
          match link_match_at s with
          | Some (text, url, n) => (text, url) :: finditer_from (pred n) s'
          | None => finditer_from 0 s'
          end
      end
  end.

Definition find_links (content : str) : list (str * str) :=
  finditer_from 0 content.

(** An entry of [malformed_links]. *)
Record Malformed := {
  file : str;
  issue : str;
  url : str
}.

Definition link_issues (name : str) (link : str * str) : list Malformed :=
  let (link_text, link_url) := link in
  (if negb (truthy (strip link_text))
   then [ {| file := name; issue := lit "empty link text";
             url := link_url |} ]
   else [])
  ++
  (if negb (str_eqb (strip link_url) link_url)
   then [ {| file := name; issue := lit "whitespace in URL";
             url := link_url |} ]
   else []).

(** The files are given by name and content. *)
Definition malformed_links (files : list (str * str)) : list Malformed :=
  flat_map (fun f => flat_map (link_issues (fst f)) (find_links (snd f)))
           files.

Definition test_link_format_valid (files : list (str * str)) : bool :=
  Nat.eqb (length (malformed_links files)) 0.

(** The text of a link [[text](url)]. *)
Definition link (text url : str) : str :=
  lit "[" ++ text ++ lit "](" ++ url ++ lit ")".

(** The link text is empty or only whitespace. *)
Definition empty_text (text : str) : Prop := strip text = [].
(** The URL has leading or trailing whitespace. *)
Definition padded_url (url : str) : Prop := strip url <> url.
(** The URL has a whitespace character somewhere. *)
Definition has_whitespace (url : str) : Prop :=
  Exists (fun c => is_space c = true) url.

End Links.

(** ** [TestSectionAlignment] (tests/test_consistency.py) *)

Module Sections.
Import Re.

(** The pattern of [_get_major_sections] at a line start of the subject:
    two [#], then [\s+] (which may run over newlines), then the group
    [(.+)], then [$]. Under [re.MULTILINE] the [$] holds wherever the greedy
    [(.+)] stops, at a newline or at the end. The result is group 1 and the
    length of the whole match. *)
Definition major_match_at (s : str) : option (str * nat) :=
  match s with
  | a :: b :: s' =>
      if (is_hash a && is_hash b)%bool then
        match ws_plus dot_plus s' with
        | Some (g, rest) => Some (g, length s - length rest)
        | None => None
        end
      else None
  | _ => None
  end.

(** [pattern.finditer(content)]: group 1 of the matches from left to
    right, without overlap. [skip] counts the characters of the last match
    still to be passed; [bol] tells whether the position is at the start of
    the subject or just after a newline, where [^] holds. *)
Fixpoint finditer_from (skip : nat) (bol : bool) (s : str) : list str :=
  match s with
  | [] => []
  | c :: s' =>
      match skip with
      | S k => finditer_from k (is_nl c) s'
      | O =>
          if bol then
            match major_match_at s with
            | Some (g, n) => g :: finditer_from (pred n) (is_nl c) s'
            | None => finditer_from 0 (is_nl c) s'
            end
          else finditer_from 0 (is_nl c) s'
      end
  end.

(** Group 1 of every match, in document order. *)
Definition major_headings (content : str) : list str :=
  finditer_from 0 true content.

(** The class of the characters that [re.sub] keeps: a to z and
    whitespace. *)
Definition kept (c : ascii) : bool := (is_lower_az c || is_space c)%bool.

(** [re.sub(r'[^a-z\s]', '', heading.lower()).strip()] *)
Definition normalize (heading : str) : str :=
  strip (List.filter kept (lower heading)).

Definition _get_major_sections (content : str) : gset (list ascii) :=
  list_to_set (map normalize (major_headings content)).

(** The outcome of the test: it passes, or the assertion fails with a
    message that shows the two differences. *)
Inductive Outcome :=
  | Pass
  | AssertionError (only_in_main only_in_cskill : gset (list ascii)).

Definition test_full_copies_have_same_sections (main cskill : str)
  : Outcome :=
  let main_sections := _get_major_sections main in
  let cskill_sections := _get_major_sections cskill in
  if decide (main_sections = cskill_sections) then Pass
  else AssertionError (main_sections ∖ cskill_sections)
                      (cskill_sections ∖ main_sections).

(** *** The normalisation as the specification words it

    "Lower-casing and stripping every character that is not a lowercase
    letter or a space." *)
Definition spec_kept (c : ascii) : bool := (is_lower_az c || is_char 32 c)%bool.

Definition spec_normalize (heading : str) : str :=
  List.filter spec_kept (lower heading).

Definition spec_sections (content : str) : gset (list ascii) :=
  list_to_set (map spec_normalize (major_headings content)).

(** *** Documents whose headings keep to their line *)

(** The text of a second-level heading line: what follows the two [#] and
    the whitespace after them. *)
Definition heading_text (line : str) : option str :=
  match line with
  | a :: b :: r =>
      if (is_hash a && is_hash b)%bool then
        match take_while is_space r, drop_while is_space r with
        | _ :: _, c :: t => Some (c :: t)
        | _, _ => None
        end
      else None
  | _ => None
  end.

(** The line is not two [#] followed by whitespace only; such a line would
    take its text from the lines below. *)
Definition titled (line : str) : Prop :=
  match line with
  | a :: b :: r =>
      (is_hash a && is_hash b)%bool = true -> drop_while is_space r <> []
  | _ => True
  end.

(** What follows a line: the end of the text, or a newline. *)
Definition line_end (s : str) : Prop := s = [] \/ exists s', s = nl :: s'.

Definition heading_list (l : str) : list str :=
  match heading_text l with Some g => [g] | None => [] end.

End Sections.

(** ** SHA-256 ([hashlib.sha256], FIPS 180-4) on byte lists

    Bytes and 32-bit words are numbers in [N]; every sum of words is taken
    modulo 2^32. *)

Module Sha256.

#[local] Open Scope N_scope.

Definition word_mod : N := 4294967296.
Definition mask32 : N := 4294967295.

Definition add32 (a b : N) : N := (a + b) mod word_mod.

Definition rotr (n x : N) : N :=
  N.lor (N.shiftr x n) (N.land (N.shiftl x (32 - n)) mask32).

Definition not32 (x : N) : N := N.lxor x mask32.

Definition Ch (x y z : N) : N := N.lxor (N.land x y) (N.land (not32 x) z).
Definition Maj (x y z : N) : N :=
  N.lxor (N.lxor (N.land x y) (N.land x z)) (N.land y z).
Definition Sigma0 (x : N) : N :=
  N.lxor (N.lxor (rotr 2 x) (rotr 13 x)) (rotr 22 x).
Definition Sigma1 (x : N) : N :=
  N.lxor (N.lxor (rotr 6 x) (rotr 11 x)) (rotr 25 x).
Definition sigma0 (x : N) : N :=
  N.lxor (N.lxor (rotr 7 x) (rotr 18 x)) (N.shiftr x 3).
Definition sigma1 (x : N) : N :=
  N.lxor (N.lxor (rotr 17 x) (rotr 19 x)) (N.shiftr x 10).

Definition K : list N :=
  [ 1116352408; 1899447441; 3049323471; 3921009573; 961987163; 1508970993;
    2453635748; 2870763221; 3624381080; 310598401; 607225278; 1426881987;
    1925078388; 2162078206; 2614888103; 3248222580; 3835390401; 4022224774;
    264347078; 604807628; 770255983; 1249150122; 1555081692; 1996064986;
    2554220882; 2821834349; 2952996808; 3210313671; 3336571891; 3584528711;
    113926993; 338241895; 666307205; 773529912; 1294757372; 1396182291;
    1695183700; 1986661051; 2177026350; 2456956037; 2730485921; 2820302411;
    3259730800; 3345764771; 3516065817; 3600352804; 4094571909; 275423344;
    430227734; 506948616; 659060556; 883997877; 958139571; 1322822218;
    1537002063; 1747873779; 1955562222; 2024104815; 2227730452; 2361852424;
    2428436474; 2756734187; 3204031479; 3329325298 ].

(** The eight working registers. *)
Record Regs := {
  ra : N; rb : N; rc : N; rd : N; re : N; rf : N; rg : N; rh : N
}.

Definition H0 : Regs :=
  {| ra := 1779033703; rb := 3144134277; rc := 1013904242; rd := 2773480762;
     re := 1359893119; rf := 2600822924; rg := 528734635; rh := 1541459225 |}.

(** The message schedule after the first sixteen words; [recent] holds the
    last sixteen words, the newest first. *)
Fixpoint expand (n : nat) (recent : list N) : list N :=
  match n with
  | O => []
  | S n' =>
      let w := add32 (add32 (sigma1 (nth 1 recent 0)) (nth 6 recent 0))
                     (add32 (sigma0 (nth 14 recent 0)) (nth 15 recent 0)) in
      w :: expand n' (w :: firstn 15 recent)
  end.

Definition schedule (block : list N) : list N :=
  block ++ expand 48 (rev block).

Definition round (r : Regs) (kw : N * N) : Regs :=
  let t1 := add32 (add32 (add32 (rh r) (Sigma1 (re r)))
                         (add32 (Ch (re r) (rf r) (rg r)) (fst kw)))
                  (snd kw) in
  let t2 := add32 (Sigma0 (ra r)) (Maj (ra r) (rb r) (rc r)) in
  {| ra := add32 t1 t2; rb := ra r; rc := rb r; rd := rc r;
     re := add32 (rd r) t1; rf := re r; rg := rf r; rh := rg r |}.

(** One block of sixteen words. *)
Definition compress (h : Regs) (block : list N) : Regs :=
  let r := fold_left round (combine K (schedule block)) h in
  {| ra := add32 (ra h) (ra r); rb := add32 (rb h) (rb r);
     rc := add32 (rc h) (rc r); rd := add32 (rd h) (rd r);
     re := add32 (re h) (re r); rf := add32 (rf h) (rf r);
     rg := add32 (rg h) (rg r); rh := add32 (rh h) (rh r) |}.

(** Big-endian bytes of [x], [n] of them. *)
Fixpoint be_bytes (n : nat) (x : N) : list N :=
  match n with
  | O => []
  | S n' => (N.shiftr x (8 * N.of_nat n')) mod 256 :: be_bytes n' x
  end.

(** The message, the byte 0x80, zeros up to 56 modulo 64, and the length in
    bits on eight bytes. *)
Definition pad (msg : list N) : list N :=
  let len := length msg in
  let zeros := ((55 + 64 - (len mod 64)%nat) mod 64)%nat in
  msg ++ 128 :: repeat 0 zeros ++ be_bytes 8 (8 * N.of_nat len).

Fixpoint be_word (bytes : list N) (acc : N) : N :=
  match bytes with
  | [] => acc
  | b :: bs => be_word bs (acc * 256 + b)
  end.

(** Sixteen words of four bytes. *)
Fixpoint words_of (n : nat) (bytes : list N) : list N :=
  match n with
  | O => []
  | S n' => be_word (firstn 4 bytes) 0 :: words_of n' (skipn 4 bytes)
  end.

Fixpoint blocks_of (n : nat) (bytes : list N) : list (list N) :=
  match n with
  | O => []
  | S n' => words_of 16 (firstn 64 bytes) :: blocks_of n' (skipn 64 bytes)
  end.

Definition digest_regs (msg : list N) : Regs :=
  let p := pad msg in
  fold_left compress (blocks_of (length p / 64)%nat p) H0.

Definition regs_words (r : Regs) : list N :=
  [ra r; rb r; rc r; rd r; re r; rf r; rg r; rh r].

(** The digest as eight 32-bit words. *)
Definition digest_words (msg : list N) : list N :=
  regs_words (digest_regs msg).

Definition hex_digit (d : N) : ascii :=
  nth (N.to_nat d) (list_ascii_of_string "0123456789abcdef") "0"%char.

(** The hexadecimal digits of [x], [n] of them, most significant first. *)
Fixpoint hex (n : nat) (x : N) : list ascii :=
  match n with
  | O => []
  | S n' => hex_digit ((N.shiftr x (4 * N.of_nat n')) mod 16) :: hex n' x
  end.

(** [hashlib.sha256(msg).hexdigest()] *)
Definition hexdigest (msg : list N) : list ascii :=
  flat_map (hex 8) (digest_words msg).



End Sha256.

(** ** [TestFullVersionConsistency] (tests/test_consistency.py) *)

Module Identity.

(** [s.encode()]: UTF-8, one byte below U+0080 and two bytes from there
    to U+00FF. *)
Definition encode_char (c : ascii) : list N :=
  let n := ord c in
  if N.ltb n 128 then [n]
  else [N.lor 192 (N.shiftr n 6); N.lor 128 (N.land n 63)].

Definition encode (s : str) : list N := flat_map encode_char s.




End Identity.

(** ** The callers of [extract_code_blocks] (tests/test_code_examples.py) *)

Module CodeChecks.
Import CodeBlocks.

(** The lines that start with three backticks. *)
Definition fence_lines (lines : list str) : list str :=
  List.filter (startswith fence) lines.

(** [len(re.findall(r'^```', content, re.MULTILINE))]: the matches from
    left to right, without overlap. [skip] counts the characters of the last
    match still to be passed; [bol] tells whether the position is the start
    of the text or follows a newline. *)
Fixpoint findall_fences_from (skip : nat) (bol : bool) (s : str) : nat :=
  match s with
  | [] => 0
  | c :: s' =>
      match skip with
      | S k => findall_fences_from k (is_nl c) s'
      | O =>
          if (bol && startswith fence s)%bool
          then S (findall_fences_from 2 (is_nl c) s')
          else findall_fences_from 0 (is_nl c) s'
      end
  end.

Definition findall_fences (content : str) : nat :=
  findall_fences_from 0 true content.

(** The assertion [len(all_fences) % 2 == 0] on one file. *)
Definition fences_even (content : str) : bool :=
  Nat.eqb (findall_fences content mod 2) 0.

(** The files are given by name and content; the test passes when the
    assertion holds for each of them. *)
Definition test_markdown_code_blocks_well_formed
    (files : list (str * str)) : bool :=
  forallb (fun f => fences_even (snd f)) files.

(** The block starts on a line of [lines] that opens with three backticks,
    carries the tag of that line, and no line of its code starts with three
    backticks. *)
Definition anchored (lines : list str) (b : CodeBlock) : Prop :=
  exists l, nth_error lines (line_number b - 1) = Some l /\
    1 <= line_number b /\ is_fence l /\ language b = tag_of l /\
    Forall not_fence (split_nl (code b)).

(** The numbers grow strictly, from above [prev]. *)
Fixpoint increasing (prev : nat) (ns : list nat) : Prop :=
  match ns with
  | [] => True
  | n :: rest => prev < n /\ increasing n rest
  end.

(** The block that is open, if any, as [anchored] states it for an emitted
    block. *)
Definition open_anchored (lines : list str) (st : State) : Prop :=
  forall b, current_block st = Some b ->
    exists l, nth_error lines (ob_line_number b - 1) = Some l /\
      1 <= ob_line_number b /\ is_fence l /\ ob_language b = tag_of l /\
      Forall not_fence (ob_code b) /\ Forall no_nl (ob_code b).

Definition anchored_inv (pre : list str) (st : State) : Prop :=
  Forall no_nl pre ->
  Forall (anchored pre) (code_blocks st) /\ open_anchored pre st.

Definition increasing_inv (pre : list str) (st : State) : Prop :=
  increasing 0 (map line_number (code_blocks st)) /\
  Forall (fun b => line_number b <= length pre) (code_blocks st) /\
  (forall b, current_block st = Some b ->
     1 <= ob_line_number b <= length pre /\
     Forall (fun b' => line_number b' < ob_line_number b) (code_blocks st)).

(** 1 for a line that starts with three backticks, 0 for another. *)
Definition fence_bit (l : str) : nat := if startswith fence l then 1 else 0.

Definition count_inv (pre : list str) (st : State) : Prop :=
  2 * length (code_blocks st) + (if in_code_block st then 1 else 0)
  = length (fence_lines pre).


(** *** [test_main_skill_has_code_blocks], [test_cskill_has_code_blocks] *)

(** The assertion [len(code_blocks) > 0]; [None] when the extractor
    raises. *)
Definition test_has_code_blocks (content : str) : option bool :=
  option_map (fun blocks => Nat.ltb 0 (length blocks))
             (extract_code_blocks content).

(** *** [test_no_invalid_language_identifiers] *)

(** [str.isalnum] on one character: the word characters but the
    underscore. *)
Definition is_alnum (c : ascii) : bool :=
  (between 48 57 c || between 65 90 c || between 97 122 c
   || is_char 170 c || between 178 179 c || is_char 181 c
   || between 185 186 c || between 188 190 c
   || between 192 214 c || between 216 246 c || between 248 255 c)%bool.

(** [s.isalnum()]: at least one character, all alphanumeric. *)
Definition isalnum (s : str) : bool := (truthy s && forallb is_alnum s)%bool.

Definition valid_languages : list str :=
  map lit
    [ ""; "markdown"; "md"; "bash"; "sh"; "shell"; "python"; "py";
      "javascript"; "js"; "typescript"; "ts"; "json"; "yaml"; "yml";
      "html"; "css"; "sql"; "go"; "rust"; "java"; "c"; "cpp"; "ruby";
      "text"; "plaintext"; "txt"; "diff"; "xml"; "toml"; "ini" ]%string.

(** [x in xs] on strings. *)
Definition str_in (x : str) (xs : list str) : bool := existsb (str_eqb x) xs.

(** An entry of [invalid_identifiers]. *)
Record InvalidId := {
  inv_file : str;
  inv_language : str;
  inv_line : nat
}.

(** The three nested conditions on one block. *)
Definition block_invalid (b : CodeBlock) : bool :=
  let lang := lower (language b) in
  (truthy lang && negb (str_in lang valid_languages) && negb (isalnum lang))%bool.

Definition file_invalid_ids (name : str) (blocks : list CodeBlock)
  : list InvalidId :=
  map (fun b => {| inv_file := name; inv_language := language b;
                   inv_line := line_number b |})
      (List.filter block_invalid blocks).

(** The list built by the loop over the files; [None] when the extractor
    raises. *)
Fixpoint invalid_identifiers (files : list (str * str))
  : option (list InvalidId) :=
  match files with
  | [] => Some []
  | f :: rest =>
      match extract_code_blocks (snd f) with
      | None => None
      | Some blocks =>
          match invalid_identifiers rest with
          | None => None
          | Some more => Some (file_invalid_ids (fst f) blocks ++ more)
          end
      end
  end.

Definition test_no_invalid_language_identifiers (files : list (str * str))
  : option bool :=
  option_map (fun ids => Nat.eqb (length ids) 0) (invalid_identifiers files).

Definition is_underscore (c : ascii) : bool := is_char 95 c.
Definition has_underscore (s : str) : bool := existsb is_underscore s.

(** *** [test_bash_examples_valid_syntax] *)

(** The occurrences of a non-empty [sub] counted from left to right without
    overlap; [skip] counts the characters of the last occurrence still to
    be passed. *)
Fixpoint count_from (sub : str) (skip : nat) (s : str) : nat :=
  match s with
  | [] => 0
  | _ :: s' =>
      match skip with
      | S k => count_from sub k s'
      | O =>
          if startswith sub s then S (count_from sub (pred (length sub)) s')
          else count_from sub 0 s'
      end
  end.

(** [s.count(sub)]; the empty string occurs between any two characters and
    at both ends. *)
Definition count (sub s : str) : nat :=
  match sub with
  | [] => S (length s)
  | _ => count_from sub 0 s
  end.

Definition backslash : ascii := ascii_of_N 92.
Definition single_quote : ascii := ascii_of_N 39.
Definition double_quote : ascii := ascii_of_N 34.

(** [code.count(q) - code.count('\\' + q)] *)
Definition quote_balance (q : ascii) (code : str) : Z :=
  (Z.of_nat (count [q] code) - Z.of_nat (count [backslash; q] code))%Z.

(** Both assertions on one block. *)
Definition quotes_balanced (code : str) : bool :=
  (Z.eqb (quote_balance single_quote code mod 2) 0
   && Z.eqb (quote_balance double_quote code mod 2) 0)%bool.

Definition is_bash (b : CodeBlock) : bool :=
  str_in (language b) [lit "bash"; lit "sh"; lit "shell"].

(** The test over the files, in order: [Some false] at the first block
    that fails an assertion, [None] when the extractor raises. *)
Fixpoint test_bash_examples_valid_syntax (files : list (str * str))
  : option bool :=
  match files with
  | [] => Some true
  | f :: rest =>
      match extract_code_blocks (snd f) with
      | None => None
      | Some blocks =>
          if forallb (fun b => quotes_balanced (code b))
                     (List.filter is_bash blocks)
          then test_bash_examples_valid_syntax rest
          else Some false
      end
  end.

(** The occurrences of [q] that do not follow a backslash; [prev] tells
    whether the character before is a backslash. *)
Fixpoint unescaped (q : ascii) (prev : bool) (s : str) : nat :=
  match s with
  | [] => 0
  | c :: s' =>
      (if (Ascii.eqb q c && negb prev)%bool then 1 else 0)
      + unescaped q (Ascii.eqb backslash c) s'
  end.

End CodeChecks.

(** ** The callers of [extract_checklists]
    (tests/test_checklist_coverage.py) *)

Module ChecklistChecks.
Import Re Checklists.

(** The item text that a line contributes, if it is a checklist item (a
    line that matches the checklist pattern never matches the heading
    pattern). *)
Definition item_of (line : str) : option str :=
  option_map strip (checklist_match line).

Definition item_list (line : str) : list str :=
  match item_of line with Some t => [t] | None => [] end.

(** The item texts of the checklist lines of a document, in order. *)
Definition item_texts (lines : list str) : list str :=
  flat_map item_list lines.

(** The items held by a state, emitted or in the open group. *)
Definition all_items (st : State) : list str :=
  flat_map items (checklists st) ++ flat_map items (open_group st).

(** The assertion [len(checklists) > 0]. *)
Definition test_main_skill_has_checklists (content : str) : bool :=
  Nat.ltb 0 (length (extract_checklists content)).

(** [empty_checklists] and the assertion that there is none. *)
Definition test_checklists_have_items (content : str) : bool :=
  Nat.eqb
    (length (List.filter (fun c => Nat.eqb (length (items c)) 0)
                         (extract_checklists content)))
    0.

(** [sum(len(c['items']) for c in checklists)] *)
Definition total_items (gs : list ChecklistGroup) : nat :=
  fold_left (fun acc c => acc + length (items c)) gs 0.

(** The assertion [total_items >= minimum_expected]. *)
Definition test_total_checklist_item_count (content : str) : bool :=
  Nat.leb 30 (total_items (extract_checklists content)).

(** An entry of [problematic_items]. *)
Record Problem := {
  pb_section : str;
  pb_item : str;
  pb_issue : str
}.

(** [len(item) < 10] *)
Definition too_short (item : str) : bool := Nat.ltb (length item) 10.

(** The list built by the two loops; the second branch of the test on an
    item does nothing. *)
Definition problematic_items (gs : list ChecklistGroup) : list Problem :=
  flat_map
    (fun g => map (fun item => {| pb_section := section g; pb_item := item;
                                  pb_issue := lit "too short" |})
                  (List.filter too_short (items g)))
    gs.

(** The assertion [len(problematic_items) < 3]. *)
Definition test_checklist_items_are_questions_or_statements
    (content : str) : bool :=
  Nat.ltb (length (problematic_items (extract_checklists content))) 3.

(** The section in force after the lines: the trimmed text of the last
    heading among them, ["Unknown"] when there is none. *)
Definition section_after (lines : list str) : str :=
  fold_left (fun sec l => match section_match l with
                          | Some g => strip g
                          | None => sec
                          end)
            lines (lit "Unknown").

(** The group starts on the line of its first item and belongs to the last
    heading above that line. *)
Definition headed (lines : list str) (g : ChecklistGroup) : Prop :=
  exists l t, nth_error lines (line_number g - 1) = Some l /\
    1 <= line_number g /\
    checklist_match l = Some t /\
    hd_error (items g) = Some (strip t) /\
    section g = section_after (firstn (line_number g - 1) lines).

Definition headed_inv (pre : list str) (st : State) : Prop :=
  current_section st = section_after pre /\
  Forall (headed pre) (checklists st) /\
  Forall (headed pre) (open_group st).

(** Section and items carry no whitespace at either end. *)
Definition trimmed (g : ChecklistGroup) : Prop :=
  strip (section g) = section g /\ Forall (fun t => strip t = t) (items g).

Definition trimmed_inv (st : State) : Prop :=
  strip (current_section st) = current_section st /\
  Forall trimmed (checklists st) /\ Forall trimmed (open_group st).

End ChecklistChecks.

(** ** [test_heading_hierarchy] (tests/test_markdown_syntax.py) *)

Module Hierarchy.
Import Re.

(** [header_pattern] at a line start: one to six [#] (group 1), then [\s+],
    which may run over line ends. The result is the length of group 1 and
    the length of the match. *)
Definition header_match_at (s : str) : option (nat * nat) :=
  match s with
  | c :: s' =>
      if is_hash c then
        match hashes_upto 5
                (fun r => ws_plus (fun rest => Some (r, rest)) r) s' with
        | Some (r, rest) => Some (length s - length r, length s - length rest)
        | None => None
        end
      else None
  | [] => None
  end.

(** [header_pattern.finditer(content)], as the list of
    [len(match.group(1))]. *)
Fixpoint finditer_from (skip : nat) (bol : bool) (s : str) : list nat :=
  match s with
  | [] => []
  | c :: s' =>
      match skip with
      | S k => finditer_from k (is_nl c) s'
      | O =>
          if bol then
            match header_match_at s with
            | Some (level, n) => level :: finditer_from (pred n) (is_nl c) s'
            | None => finditer_from 0 (is_nl c) s'
            end
          else finditer_from 0 (is_nl c) s'
      end
  end.

Definition header_levels (content : str) : list nat :=
  finditer_from 0 true content.

(** An entry of [hierarchy_issues]; the message names the two levels. *)
Record Jump := {
  jump_file : str;
  jump_from : nat;
  jump_to : nat
}.

(** The loop over the matches of one file, from [prev_level]. *)
Fixpoint jumps (name : str) (prev_level : nat) (levels : list nat)
  : list Jump :=
  match levels with
  | [] => []
  | current_level :: rest =>
      if Nat.eqb prev_level 0 then jumps name current_level rest
      else
        (if Nat.ltb (prev_level + 2) current_level
         then [ {| jump_file := name; jump_from := prev_level;
                   jump_to := current_level |} ]
         else [])
        ++ jumps name current_level rest
  end.

Definition hierarchy_issues (files : list (str * str)) : list Jump :=
  flat_map (fun f => jumps (fst f) 0 (header_levels (snd f))) files.

Definition test_heading_hierarchy (files : list (str * str)) : bool :=
  Nat.eqb (length (hierarchy_issues files)) 0.

(** Every heading is at most two levels deeper than the heading before. *)
Fixpoint gentle (levels : list nat) : Prop :=
  match levels with
  | a :: rest =>
      match rest with
      | b :: _ => b <= a + 2 /\ gentle rest
      | [] => True
      end
  | [] => True
  end.

(** The same, from a previous level. *)
Fixpoint gentle_from (prev : nat) (levels : list nat) : Prop :=
  match levels with
  | [] => True
  | b :: rest => b <= prev + 2 /\ gentle_from b rest
  end.

End Hierarchy.

(** ** [test_tables_well_formed] (tests/test_markdown_syntax.py) *)

Module Tables.

Definition is_pipe (c : ascii) : bool := is_char 124 c.

(** ['|' in s] and [s.count('|')] *)
Definition has_pipe (s : str) : bool := existsb is_pipe s.
Definition count_pipe (s : str) : nat := length (List.filter is_pipe s).

(** An entry of [table_issues]; the message names the two counts. *)
Record Issue := {
  issue_line : nat;
  count_from : nat;
  count_to : nat
}.

(** The locals of the loop. *)
Record State := {
  table_issues : list Issue;
  in_table : bool;
  table_start : nat;
  column_count : nat
}.

Definition init : State :=
  {| table_issues := []; in_table := false; table_start := 0;
     column_count := 0 |}.

(** One iteration of the loop body on line [i]. *)
Definition step (st : State) (i : nat) (line : str) : State :=
  let stripped := strip line in
  if (has_pipe stripped && negb (in_table st))%bool then
    {| table_issues := table_issues st; in_table := true;
       table_start := i; column_count := count_pipe stripped |}
  else if in_table st then
    if has_pipe stripped then
      let current_columns := count_pipe stripped in
      if negb (Nat.eqb current_columns (column_count st)) then
        {| table_issues :=
             table_issues st
             ++ [ {| issue_line := i; count_from := column_count st;
                     count_to := current_columns |} ];
           in_table := true; table_start := table_start st;
           column_count := column_count st |}
      else st
    else
      {| table_issues := table_issues st; in_table := false;
         table_start := table_start st; column_count := column_count st |}
  else st.

Fixpoint scan (st : State) (i : nat) (lines : list str) : State :=
  match lines with
  | [] => st
  | line :: rest => scan (step st i line) (S i) rest
  end.

Definition find_table_issues (content : str) : list Issue :=
  table_issues (scan init 1 (split_nl content)).

Definition test_tables_well_formed (content : str) : bool :=
  Nat.eqb (length (find_table_issues content)) 0.

(** *** Documents made of tables

    A table is a run of lines that hold a pipe; it ends at the first line
    without one. *)
Record Table := {
  rows : list str;
  gap : list str
}.

Definition piped (l : str) : Prop := has_pipe l = true.
Definition unpiped (l : str) : Prop := has_pipe l = false.

Definition table_wf (t : Table) : Prop :=
  rows t <> [] /\ Forall piped (rows t) /\
  gap t <> [] /\ Forall unpiped (gap t).

Definition table_lines (t : Table) : list str := rows t ++ gap t.

(** The rows after the first whose number of pipes differs from [cols], the
    first of them being line [i]. *)
Fixpoint row_issues (i cols : nat) (rs : list str) : list Issue :=
  match rs with
  | [] => []
  | r :: rest =>
      (if Nat.eqb (count_pipe r) cols then []
       else [ {| issue_line := i; count_from := cols;
                 count_to := count_pipe r |} ])
      ++ row_issues (S i) cols rest
  end.

(** The issues of a run of rows whose first row is line [i]. *)
Definition run_issues (i : nat) (rs : list str) : list Issue :=
  match rs with
  | [] => []
  | header :: rest => row_issues (S i) (count_pipe header) rest
  end.

Fixpoint tables_issues (i : nat) (ts : list Table) : list Issue :=
  match ts with
  | [] => []
  | t :: rest =>
      run_issues i (rows t) ++ tables_issues (i + length (table_lines t)) rest
  end.

Definition doc_lines (before : list str) (ts : list Table)
    (last_rows : list str) : list str :=
  before ++ concat (map table_lines ts) ++ last_rows.

(** A table of three rows whose second row lacks one pipe. *)
Definition ragged : list Table :=
  [ {| rows := [lit "| a | b |"; lit "| 1 | 2"; lit "| 3 | 4 |"];
       gap := [lit ""; lit "text"] |} ].

End Tables.

(** ** Keyword checks (tests/test_checklist_coverage.py,
    tests/test_consistency.py) *)

Module Coverage.

(** [sub in s] on strings. *)
Fixpoint contains (sub s : str) : bool :=
  (startswith sub s
   || match s with
      | [] => false
      | _ :: s' => contains sub s'
      end)%bool.

(** [[k for k in keywords if k in text]] *)
Definition found (keywords : list str) (text : str) : list str :=
  List.filter (fun k => contains k text) keywords.

Definition required_edge_cases : list str :=
  map lit [ "empty"; "single"; "maximum"; "invalid"; "null"; "negative";
            "zero" ]%string.

Definition test_edge_case_checklist_comprehensive (content : str) : bool :=
  Nat.leb 5 (length (found required_edge_cases (lower content))).

Definition security_concerns : list str :=
  map lit [ "sql injection"; "xss"; "input"; "sensitive"; "secrets";
            "authentication" ]%string.

Definition test_security_checklist_comprehensive (content : str) : bool :=
  Nat.leb 4 (length (found security_concerns (lower content))).

Definition quality_aspects : list str :=
  map lit [ "readable"; "correct"; "error"; "efficient"; "performance" ]%string.

Definition test_code_quality_checklist_complete (content : str) : bool :=
  Nat.leb 4 (length (found quality_aspects (lower content))).

Definition task_types : list str :=
  map lit [ "coding"; "analysis"; "problem"; "complex" ]%string.

Definition test_covers_common_task_types (content : str) : bool :=
  Nat.leb 3 (length (found task_types (lower content))).

Definition error_types : list str :=
  map lit [ "logic"; "completeness"; "accuracy"; "efficiency" ]%string.

Definition test_covers_error_categories (content : str) : bool :=
  Nat.leb 3 (length (found error_types (lower content))).

(** Both assertions. *)
Definition test_pre_and_post_checklists_exist (content : str) : bool :=
  (contains (lit "pre-response") (lower content)
   && contains (lit "post-response") (lower content))%bool.

Definition test_master_checklist_section_exists (content : str) : bool :=
  contains (lit "Master Checklist") content.

(** The condensed document (tests/test_consistency.py). *)
Definition phases : list (str * str) :=
  [ (lit "Phase 1", lit "Comprehension"); (lit "Phase 2", lit "Strategy");
    (lit "Phase 3", lit "Execution"); (lit "Phase 4", lit "Review");
    (lit "Phase 5", lit "Refinement") ].

Definition test_condensed_has_core_phases (content : str) : bool :=
  forallb (fun p => (contains (fst p) content || contains (snd p) content)%bool)
          phases.

Definition test_condensed_has_chain_of_thought (content : str) : bool :=
  (contains (lit "Chain-of-Thought") content || contains (lit "CoT") content)%bool.

Definition test_condensed_has_code_generation (content : str) : bool :=
  (contains (lit "Code Generation") content
   || contains (lit "code generation") (lower content))%bool.

Definition checklist_terms : list str :=
  map lit [ "Pre-Response"; "Post-Response"; "Quality"; "Checklist" ]%string.

Definition test_condensed_has_checklists (content : str) : bool :=
  Nat.leb 2 (length (found checklist_terms content)).

Definition correction_terms : list str :=
  map lit [ "Self-Correction"; "self-correction"; "Accuracy";
            "Completeness" ]%string.

Definition test_condensed_has_self_correction (content : str) : bool :=
  existsb (fun term => contains term content) correction_terms.

(** A check that stays passed when text is put before and after the
    document. *)
Definition monotone (test : str -> bool) : Prop :=
  forall before content after,
    test content = true -> test (before ++ content ++ after) = true.

End Coverage.

(** ** [test_no_multiple_blank_lines] (tests/test_markdown_syntax.py) *)

Module BlankLines.
Import Coverage.

(** Four newline characters. *)
Definition four_newlines : str := [nl; nl; nl; nl].

(** The names of the files that hold four newlines in a row. *)
Definition blank_line_issues (files : list (str * str)) : list str :=
  map fst (List.filter (fun f => contains four_newlines (snd f)) files).

Definition test_no_multiple_blank_lines (files : list (str * str)) : bool :=
  Nat.eqb (length (blank_line_issues files)) 0.

(** The lines start with three empty lines followed by one more line. *)
Definition three_blank_then_more (lines : list str) : bool :=
  match lines with
  | [] :: [] :: [] :: _ :: _ => true
  | _ => false
  end.

(** Three empty lines in a row stand between two other lines. *)
Fixpoint blank_run_inside (lines : list str) : bool :=
  match lines with
  | [] => false
  | _ :: rest => (three_blank_then_more rest || blank_run_inside rest)%bool
  end.

End BlankLines.

(** ** [test_no_broken_internal_links] (tests/test_consistency.py) *)

Module InternalLinks.
Import Re Links Coverage.

(** [internal_link_pattern] at the start of [s]: an opening bracket, one or
    more characters up to the next closing bracket (group 1), that bracket,
    an opening parenthesis and a [#], one or more characters up to the next
    closing parenthesis (group 2), that parenthesis. The result is the two
    groups and the length of the match. *)
Definition internal_link_match_at (s : str) : option (str * str * nat) :=
  match s with
  | o :: s1 =>
      if is_lbracket o then
        match take_while not_rbracket s1, drop_while not_rbracket s1 with
        | (_ :: _) as text, _ :: p :: h :: s2 =>
            if (is_lparen p && is_hash h)%bool then
              match take_while not_rparen s2, drop_while not_rparen s2 with
              | (_ :: _) as anchor, _ :: _ =>
                  Some (text, anchor, length text + length anchor + 5)
              | _, _ => None
              end
            else None
        | _, _ => None
        end
      else None
  | [] => None
  end.

Fixpoint finditer_from (skip : nat) (s : str) : list (str * str) :=
  match s with
  | [] => []
  | _ :: s' =>
      match skip with
      | S k => finditer_from k s'
      | O =>
          match internal_link_match_at s with
          | Some (text, anchor, n) =>
              (text, anchor) :: finditer_from (pred n) s'
          | None => finditer_from 0 s'
          end
      end
  end.

Definition internal_links (content : str) : list (str * str) :=
  finditer_from 0 content.

(** [anchor.replace('-', ' ')] *)
Definition dashes_to_spaces (anchor : str) : str :=
  map (fun c => if is_dash c then ascii_of_N 32 else c) anchor.

(** An entry of [broken_links]. *)
Record Broken := {
  bl_file : str;
  bl_link_text : str;
  bl_anchor : str
}.

Definition file_broken_links (name content : str) : list Broken :=
  flat_map
    (fun m : str * str =>
       let anchor_words := lower (dashes_to_spaces (snd m)) in
       if negb (contains anchor_words (lower content))
       then [ {| bl_file := name; bl_link_text := fst m;
                 bl_anchor := snd m |} ]
       else [])
    (internal_links content).

Definition broken_links (files : list (str * str)) : list Broken :=
  flat_map (fun f => file_broken_links (fst f) (snd f)) files.

(** The assertion [len(broken_links) < 5]. *)
Definition test_no_broken_internal_links (files : list (str * str)) : bool :=
  Nat.ltb (length (broken_links files)) 5.

Definition has_dash (s : str) : bool := existsb is_dash s.

End InternalLinks.
(** ** Facts about strings and lists *)

Section PyFacts.

Lemma is_nl_spec c : is_nl c = true <-> c = nl.
Proof.
  unfold is_nl, is_char, ord, nl. rewrite N.eqb_eq. split.
  - intros H. rewrite <- (ascii_N_embedding c), H. reflexivity.
  - intros ->. reflexivity.
Qed.

Lemma split_nl_nonempty s : split_nl s <> [].
Proof.
  destruct s as [|c s]; simpl; [discriminate|].
  destruct (is_nl c); [discriminate|].
  destruct (split_nl s); discriminate.
Qed.

Lemma split_nl_line l : no_nl l -> split_nl l = [l].
Proof.
  induction 1 as [|c l Hc _ IH]; simpl; [reflexivity|].
  rewrite Hc, IH. reflexivity.
Qed.

Lemma split_nl_app_nl l s :
  no_nl l -> split_nl (l ++ nl :: s) = l :: split_nl s.
Proof.
  induction 1 as [|c l Hc _ IH]; simpl.
  - reflexivity.
  - rewrite Hc, IH. reflexivity.
Qed.

(** Splitting a joined list of newline-free lines gives the lines back. *)
Lemma split_join ls :
  ls <> [] -> Forall no_nl ls -> split_nl (join_nl ls) = ls.
Proof.
  induction ls as [|l ls IH]; intros Hne Hall; [congruence|].
  inversion Hall as [|? ? Hl Hls]; subst.
  destruct ls as [|l' ls].
  - simpl. apply split_nl_line, Hl.
  - change (join_nl (l :: l' :: ls)) with (l ++ nl :: join_nl (l' :: ls)).
    rewrite split_nl_app_nl by exact Hl.
    rewrite IH; [reflexivity|discriminate|exact Hls].
Qed.

Lemma startswith_app p s : startswith p (p ++ s) = true.
Proof.
  induction p as [|a p IH]; simpl; [reflexivity|].
  rewrite Ascii.eqb_refl. exact IH.
Qed.

Lemma startswith_spec p s : startswith p s = true <-> exists r, s = p ++ r.
Proof.
  split.
  - revert s. induction p as [|a p IH]; intros s H; simpl in *.
    + exists s. reflexivity.
    + destruct s as [|b s]; [discriminate|].
      destruct (Ascii.eqb a b) eqn:E; [|discriminate].
      apply Ascii.eqb_eq in E. subst b.
      destruct (IH _ H) as [r ->]. exists r. reflexivity.
  - intros [r ->]. apply startswith_app.
Qed.

Lemma startswith_char a b s : startswith [a] (b :: s) = Ascii.eqb a b.
Proof. cbn [startswith]. destruct (Ascii.eqb a b); reflexivity. Qed.

Lemma is_char_excl_N k1 k2 c :
  k1 <> k2 -> is_char k1 c = true -> is_char k2 c = false.
Proof.
  unfold is_char. intros Hne H1. apply N.eqb_eq in H1.
  apply N.eqb_neq. congruence.
Qed.

Lemma take_while_stop p t c r :
  Forall (fun x => p x = true) t -> p c = false ->
  take_while p (t ++ c :: r) = t.
Proof.
  intros Ht Hc. induction Ht as [|x t Hx _ IH]; simpl.
  - rewrite Hc. reflexivity.
  - rewrite Hx, IH. reflexivity.
Qed.

Lemma drop_while_stop p t c r :
  Forall (fun x => p x = true) t -> p c = false ->
  drop_while p (t ++ c :: r) = c :: r.
Proof.
  intros Ht Hc. induction Ht as [|x t Hx _ IH]; simpl.
  - rewrite Hc. reflexivity.
  - rewrite Hx, IH. reflexivity.
Qed.

Lemma drop_while_none p s :
  Forall (fun x => p x = false) s -> drop_while p s = s.
Proof. destruct 1 as [|x s Hx _]; simpl; [reflexivity|]. rewrite Hx. reflexivity. Qed.

(** A string without whitespace is its own trimmed form. *)
Lemma strip_no_space s :
  Forall (fun c => is_space c = false) s -> strip s = s.
Proof.
  intros H. unfold strip, lstrip, rstrip.
  rewrite (drop_while_none _ s H).
  rewrite drop_while_none.
  - apply rev_involutive.
  - apply Forall_rev. exact H.
Qed.

Lemma take_drop_while p (s : str) : take_while p s ++ drop_while p s = s.
Proof.
  induction s as [|c s IH]; simpl; [reflexivity|].
  destruct (p c); simpl; [rewrite IH|]; reflexivity.
Qed.

Lemma flat_map_nil {A B} (f : A -> list B) l :
  flat_map f l = [] <-> forall x, In x l -> f x = [].
Proof.
  induction l as [|a l IH]; simpl.
  - split; [intros _ x []|reflexivity].
  - split.
    + intros H. apply app_eq_nil in H. destruct H as [Ha Hl].
      intros x [<-|Hx]; [exact Ha|]. apply IH; assumption.
    + intros H. rewrite (H a) by (left; reflexivity).
      apply IH. intros x Hx. apply H. right. exact Hx.
Qed.





Lemma dash_char c : Re.is_dash c = true -> c = ascii_of_N 45.
Proof.
  unfold Re.is_dash, is_char, ord. rewrite N.eqb_eq. intros H.
  rewrite <- (ascii_N_embedding c), H. reflexivity.
Qed.





(** A list with a repetition has two positions holding the same element. *)
Lemma repeated_pair {A} (dec : forall x y : A, {x = y} + {x <> y})
    (l : list A) :
  ~ List.NoDup l ->
  exists i j a, i < j /\ nth_error l i = Some a /\ nth_error l j = Some a.
Proof.
  induction l as [|x l IH]; intros H.
  - exfalso. apply H. constructor.
  - destruct (in_dec dec x l) as [Hin|Hnin].
    + apply In_nth_error in Hin. destruct Hin as [j Hj].
      exists 0, (S j), x. split; [lia|]. split; [reflexivity|exact Hj].
    + destruct IH as (i & j & a & Hij & Hi & Hj).
      * intros Hnd. apply H. constructor; assumption.
      * exists (S i), (S j), a. split; [lia|]. split; assumption.
Qed.

End PyFacts.

(** ** Properties of [extract_code_blocks] *)

Module CodeBlocksFacts.
Import CodeBlocks.

Lemma consistent_init : consistent init.
Proof. intros H. discriminate H. Qed.

Lemma step_consistent st i line :
  consistent st -> exists st', step st i line = Some st' /\ consistent st'.
Proof.
  intros Hc. unfold step.
  destruct (in_code_block st) eqn:Hin; cbn [negb].
  - destruct (current_block st) as [b|] eqn:Hb.
    + destruct (startswith fence line); eexists; (split; [reflexivity|]);
        intros H; cbn [in_code_block current_block] in *; congruence.
    + exfalso. exact (Hc Hin Hb).
  - destruct (code_fence_match line); eexists; (split; [reflexivity|]).
    + intros _. discriminate.
    + exact Hc.
Qed.

Lemma scan_total st i lines :
  consistent st -> exists st', scan st i lines = Some st' /\ consistent st'.
Proof.
  revert st i. induction lines as [|l ls IH]; intros st i Hc; simpl.
  - eauto.
  - destruct (step_consistent st i l Hc) as (st1 & -> & Hc1). apply IH, Hc1.
Qed.

Lemma code_scan_app st i l1 l2 :
  scan st i (l1 ++ l2) =
  match scan st i l1 with
  | Some st' => scan st' (i + length l1) l2
  | None => None
  end.
Proof.
  revert st i. induction l1 as [|l l1 IH]; intros st i; simpl.
  - rewrite Nat.add_0_r. reflexivity.
  - destruct (step st i l) as [st1|]; [|reflexivity].
    rewrite IH. replace (S i + length l1) with (i + S (length l1)) by lia.
    reflexivity.
Qed.

(** Lines that do not start with a fence leave the state outside a block
    unchanged. *)
Lemma scan_outside st i ls :
  outside st -> Forall not_fence ls -> scan st i ls = Some st.
Proof.
  intros Hout Hall. revert i.
  induction Hall as [|l ls Hl _ IH]; intros i; simpl; [reflexivity|].
  unfold step, code_fence_match. rewrite Hout. cbn [negb].
  unfold not_fence in Hl. rewrite Hl. apply IH.
Qed.

(** Inside a block, lines that do not start with a fence are appended. *)
Lemma scan_body cbs b sl i ls :
  Forall not_fence ls ->
  scan {| code_blocks := cbs; in_code_block := true;
          current_block := Some b; start_line := sl |} i ls =
  Some {| code_blocks := cbs; in_code_block := true;
          current_block :=
            Some {| ob_language := ob_language b;
                    ob_code := ob_code b ++ ls;
                    ob_line_number := ob_line_number b |};
          start_line := sl |}.
Proof.
  intros Hall. revert b i.
  induction Hall as [|l ls Hl _ IH]; intros b i; simpl.
  - rewrite app_nil_r. destruct b; reflexivity.
  - unfold step. cbn [in_code_block negb current_block].
    unfold not_fence in Hl. rewrite Hl.
    rewrite IH. cbn [ob_language ob_code ob_line_number].
    rewrite <- app_assoc. reflexivity.
Qed.

(** One well-formed segment, scanned from outside a block, emits one block
    and ends outside. *)
Lemma scan_segment cbs sl i s :
  well_formed s ->
  exists sl',
    scan {| code_blocks := cbs; in_code_block := false;
            current_block := None; start_line := sl |} i (seg_lines s) =
    Some {| code_blocks :=
              cbs ++ [ {| language := tag_of (seg_open s);
                          code := join_nl (seg_body s);
                          line_number := i + length (seg_before s) |} ];
            in_code_block := false;
            current_block := None; start_line := sl' |}.
Proof.
  intros (Hb & Ho & Hbody & Hc). unfold seg_lines.
  rewrite code_scan_app, scan_outside by (assumption || reflexivity).
  cbn [scan]. unfold step at 1. cbn [in_code_block negb].
  unfold code_fence_match. unfold is_fence in Ho. rewrite Ho.
  rewrite code_scan_app, scan_body by assumption.
  cbn [scan]. unfold step. cbn [in_code_block negb current_block].
  unfold is_fence in Hc. rewrite Hc.
  eexists. reflexivity.
Qed.

Lemma scan_segments segs : forall cbs sl i,
  Forall well_formed segs ->
  exists sl',
    scan {| code_blocks := cbs; in_code_block := false;
            current_block := None; start_line := sl |} i
         (concat (map seg_lines segs)) =
    Some {| code_blocks := cbs ++ expected i segs;
            in_code_block := false;
            current_block := None; start_line := sl' |}.
Proof.
  induction segs as [|s segs IH]; intros cbs sl i Hall; simpl.
  - exists sl. rewrite app_nil_r. reflexivity.
  - inversion Hall as [|? ? Hs Hrest]; subst.
    rewrite code_scan_app.
    destruct (scan_segment cbs sl i s Hs) as [sl1 ->].
    destruct (IH (cbs ++ [ {| language := tag_of (seg_open s);
                              code := join_nl (seg_body s);
                              line_number := i + length (seg_before s) |} ])
                 sl1 (i + length (seg_lines s)) Hrest) as [sl2 ->].
    exists sl2. rewrite <- app_assoc. reflexivity.
Qed.

Lemma expected_length i segs : length (expected i segs) = length segs.
Proof.
  revert i. induction segs as [|s segs IH]; intros i; simpl; [reflexivity|].
  rewrite IH. reflexivity.
Qed.

Lemma expected_code i segs :
  map code (expected i segs) = map (fun s => join_nl (seg_body s)) segs.
Proof.
  revert i. induction segs as [|s segs IH]; intros i; simpl; [reflexivity|].
  rewrite IH. reflexivity.
Qed.

(** The extractor never raises. *)
Lemma extract_lines_total lines : exists bs, extract_lines lines = Some bs.
Proof.
  unfold extract_lines.
  destruct (scan_total init 1 lines consistent_init) as (st & -> & _).
  eauto.
Qed.

End CodeBlocksFacts.

Module CodeBlocksClaims.
Import CodeBlocks CodeBlocksSpec CodeBlocksFacts.

Lemma scan_init_doc_lines segs after :
  Forall well_formed segs -> Forall not_fence after ->
  exists st, scan init 1 (doc_lines segs after) = Some st /\
    code_blocks st = expected 1 segs /\ in_code_block st = false.
Proof.
  intros Hs Ha. unfold doc_lines, init. rewrite code_scan_app.
  destruct (scan_segments segs [] 0 1 Hs) as [sl ->].
  rewrite scan_outside by (exact Ha || reflexivity).
  eexists. split; [reflexivity|]. split; reflexivity.
Qed.

Lemma code_extract_join lines :
  Forall no_nl lines ->
  extract_code_blocks (join_nl lines) = extract_lines lines.
Proof.
  intros Hnl. unfold extract_code_blocks.
  destruct lines as [|l ls].
  - reflexivity.
  - rewrite split_join; [reflexivity|discriminate|exact Hnl].
Qed.

(** C2. Round trip on fences: a document made of N well-formed fence pairs,
    whose body lines and surrounding lines do not start with three
    backticks, yields exactly N blocks, in source order, each with the body
    lines of its pair joined by newlines as its code (and with the tag and
    the line number of its opening fence). *)
Theorem fence_round_trip (segs : list Segment) (after : list str) :
  Forall well_formed segs ->
  Forall not_fence after ->
  Forall no_nl (doc_lines segs after) ->
  exists blocks,
    extract_code_blocks (join_nl (doc_lines segs after)) = Some blocks /\
    length blocks = length segs /\
    map code blocks = map (fun s => join_nl (seg_body s)) segs /\
    blocks = expected 1 segs.
Proof.
  intros Hs Ha Hnl. exists (expected 1 segs).
  rewrite code_extract_join by exact Hnl. unfold extract_lines.
  destruct (scan_init_doc_lines segs after Hs Ha) as (st & -> & Hcb & _).
  rewrite Hcb. split; [reflexivity|].
  split; [apply expected_length|]. split; [apply expected_code|reflexivity].
Qed.

Lemma fence_round_trip_witness :
  exists blocks,
    extract_code_blocks (join_nl (doc_lines two_blocks [lit "end"]))
      = Some blocks /\
    length blocks = 2 /\
    map code blocks = [lit "x = 1" ++ nl :: lit "``y``"; []] /\
    blocks = expected 1 two_blocks.
Proof.
  apply (fence_round_trip two_blocks [lit "end"]).
  - repeat constructor.
  - repeat constructor.
  - repeat constructor.
Defined.

(** C3 as stated fails: inside a block, the line [```python] is not an
    exact closing fence (it carries text after the backticks), yet it closes
    the block instead of being appended. *)
Lemma fence_with_text_closes :
  spec_closing_fence (lit "```python") = false /\
  step inside_a 3 (lit "```python") =
    Some {| code_blocks :=
              [ {| language := []; code := lit "a"; line_number := 1 |} ];
            in_code_block := false; current_block := None;
            start_line := 1 |} /\
  ~ spec_inside_rule inside_a 3 (lit "```python").
Proof.
  split; [reflexivity|]. split; [reflexivity|].
  intros (st' & Hstep & Hrule).
  change (spec_closing_fence (lit "```python")) with false in Hrule.
  destruct Hrule as (Hin & _).
  change (step inside_a 3 (lit "```python")) with
    (Some {| code_blocks :=
              [ {| language := []; code := lit "a"; line_number := 1 |} ];
            in_code_block := false; current_block := None;
            start_line := 1 |}) in Hstep.
  injection Hstep as <-. discriminate Hin.
Qed.

(** On a whole document: the block opened on line 1 ends at [```python],
    and the last fence opens a block that is never closed. *)
Example fence_with_text_splits :
  extract_code_blocks
    (join_nl [lit "```"; lit "a"; lit "```python"; lit "b"; lit "```"]) =
  Some [ {| language := []; code := lit "a"; line_number := 1 |} ].
Proof. reflexivity. Qed.

(** C3, amended. Inside a block, a line that starts with three backticks,
    whatever follows them, closes the block and emits it without the line;
    every other line is appended verbatim to the body. *)
Theorem inside_block_rule (st : State) (i : nat) (line : str) (b : OpenBlock) :
  in_code_block st = true ->
  current_block st = Some b ->
  exists st', step st i line = Some st' /\
    if startswith fence line then closed st st' else appended st line st'.
Proof.
  intros Hin Hb. unfold step. rewrite Hin, Hb. cbn [negb].
  destruct (startswith fence line); eexists; (split; [reflexivity|]).
  - unfold closed. cbn. repeat split. exists b. split; [exact Hb|reflexivity].
  - unfold appended. cbn. repeat split.
    exists b. eexists. split; [exact Hb|]. split; [reflexivity|].
    cbn. repeat split.
Qed.

Lemma inside_block_rule_witness :
  exists st', step inside_a 2 (lit "``` not closing?") = Some st' /\
    closed inside_a st'.
Proof.
  exact (inside_block_rule inside_a 2 (lit "``` not closing?")
           {| ob_language := []; ob_code := [lit "a"]; ob_line_number := 1 |}
           eq_refl eq_refl).
Defined.

(** C4. A final opening fence that is never closed is dropped silently: the
    extractor returns, without raising, exactly the blocks of the lines
    before that fence. *)
Theorem unterminated_block_dropped
    (pre : list str) (open : str) (body : list str) (st : State) :
  scan init 1 pre = Some st ->
  in_code_block st = false ->
  is_fence open ->
  Forall not_fence body ->
  Forall no_nl (pre ++ open :: body) ->
  extract_code_blocks (join_nl (pre ++ open :: body)) = Some (code_blocks st)
  /\ extract_lines pre = Some (code_blocks st).
Proof.
  intros Hpre Hout Ho Hbody Hnl.
  rewrite code_extract_join by exact Hnl. unfold extract_lines.
  rewrite code_scan_app, Hpre. cbn [scan]. unfold step. rewrite Hout. cbn [negb].
  unfold code_fence_match. unfold is_fence in Ho. rewrite Ho.
  rewrite scan_body by exact Hbody. split; reflexivity.
Qed.

Lemma unterminated_block_dropped_witness :
  extract_code_blocks
    (join_nl (closed_then_open ++ lit "```python" :: [lit "x = 1"; lit ""]))
  = Some [ {| language := lit "sh"; code := lit "ls"; line_number := 2 |} ]
  /\ extract_lines closed_then_open
  = Some [ {| language := lit "sh"; code := lit "ls"; line_number := 2 |} ].
Proof.
  apply (unterminated_block_dropped closed_then_open (lit "```python")
           [lit "x = 1"; lit ""]
           {| code_blocks :=
                [ {| language := lit "sh"; code := lit "ls";
                     line_number := 2 |} ];
              in_code_block := false; current_block := None;
              start_line := 2 |}).
  - reflexivity.
  - reflexivity.
  - reflexivity.
  - repeat constructor.
  - repeat constructor.
Defined.

End CodeBlocksClaims.

(** ** Properties of [extract_checklists] *)

Module ChecklistsFacts.
Import Re Checklists.

Example section_match_plain :
  section_match (lit "## Setup steps ") = Some (lit "Setup steps ").
Proof. reflexivity. Qed.

Example section_match_seven : section_match (lit "####### deep") = None.
Proof. reflexivity. Qed.

Example section_match_blank : section_match (lit "# ") = None.
Proof. reflexivity. Qed.

Example section_match_two_blanks : section_match (lit "#  ") = Some (lit " ").
Proof. reflexivity. Qed.

Example checklist_match_plain :
  checklist_match (lit "- [ ] Check input ") = Some (lit "Check input ").
Proof. reflexivity. Qed.

Example checklist_match_checked :
  checklist_match (lit "-[X]done") = Some (lit "done").
Proof. reflexivity. Qed.

Example checklist_match_plain_item : checklist_match (lit "- item") = None.
Proof. reflexivity. Qed.

Lemma item_not_heading line t :
  checklist_match line = Some t -> section_match line = None.
Proof.
  destruct line as [|c s]; [discriminate|]. unfold checklist_match, section_match.
  unfold is_dash, is_hash. destruct (is_char 45 c) eqn:E; [|discriminate].
  rewrite (is_char_excl_N 45 35 c) by (discriminate || exact E). reflexivity.
Qed.

Lemma checklist_scan_app st i l1 l2 :
  scan st i (l1 ++ l2) = scan (scan st i l1) (i + length l1) l2.
Proof.
  revert st i. induction l1 as [|l l1 IH]; intros st i; simpl.
  - rewrite Nat.add_0_r. reflexivity.
  - rewrite IH. replace (S i + length l1) with (i + S (length l1)) by lia.
    reflexivity.
Qed.

(** *** Emitted groups are never empty *)

Lemma flush_nonempty st :
  nonempty_groups (checklists st) -> nonempty_groups (flush st).
Proof.
  intros H. unfold flush. destruct (current_checklist st) as [g|]; [|exact H].
  destruct (items g) eqn:E; [exact H|]. cbn [truthy].
  apply Forall_app. split; [exact H|]. constructor; [|constructor].
  rewrite E. discriminate.
Qed.

Lemma step_nonempty st i line :
  nonempty_groups (checklists st) -> nonempty_groups (checklists (step st i line)).
Proof.
  intros H. unfold step.
  destruct (section_match line); [apply flush_nonempty, H|].
  destruct (checklist_match line); [exact H|].
  destruct (current_checklist st) eqn:E; [|exact H].
  destruct (truthy (strip line) && negb (startswith (lit "-") line))%bool;
    [|exact H].
  apply flush_nonempty, H.
Qed.

Lemma scan_nonempty lines : forall st i,
  nonempty_groups (checklists st) ->
  nonempty_groups (checklists (scan st i lines)).
Proof.
  induction lines as [|l ls IH]; intros st i H; simpl; [exact H|].
  apply IH, step_nonempty, H.
Qed.

Lemma extract_checklists_nonempty content :
  nonempty_groups (extract_checklists content).
Proof.
  unfold extract_checklists, extract_lines.
  apply flush_nonempty, scan_nonempty. constructor.
Qed.

(** *** A run of checklist items *)

Lemma step_item st i line t :
  checklist_match line = Some t ->
  step st i line =
  {| checklists := checklists st;
     current_section := current_section st;
     current_checklist :=
       Some match current_checklist st with
            | Some g => {| section := section g;
                           items := items g ++ [strip t];
                           line_number := line_number g |}
            | None => {| section := current_section st;
                         items := [strip t]; line_number := i |}
            end |}.
Proof.
  intros H. unfold step. rewrite (item_not_heading _ _ H), H.
  destruct (current_checklist st); reflexivity.
Qed.

Lemma scan_items_open ls : forall ts cl sec g i,
  matches_items ls ts ->
  scan {| checklists := cl; current_section := sec;
          current_checklist := Some g |} i ls =
  {| checklists := cl; current_section := sec;
     current_checklist :=
       Some {| section := section g; items := items g ++ map strip ts;
               line_number := line_number g |} |}.
Proof.
  induction ls as [|l ls IH]; intros ts cl sec g i H; inversion H; subst; simpl.
  - rewrite app_nil_r. destruct g; reflexivity.
  - rewrite (step_item _ _ _ _ ltac:(eassumption)). cbn [current_checklist
      checklists current_section].
    rewrite (IH _ _ _ _ _ ltac:(eassumption)). cbn [section items line_number].
    rewrite <- app_assoc. reflexivity.
Qed.

Lemma scan_items_fresh l ls t ts cl sec i :
  matches_items (l :: ls) (t :: ts) ->
  scan {| checklists := cl; current_section := sec;
          current_checklist := None |} i (l :: ls) =
  {| checklists := cl; current_section := sec;
     current_checklist :=
       Some {| section := sec; items := map strip (t :: ts);
               line_number := i |} |}.
Proof.
  intros H. inversion H; subst. cbn [scan].
  rewrite (step_item _ _ _ _ ltac:(eassumption)).
  cbn [current_checklist checklists current_section].
  rewrite (scan_items_open _ _ _ _ _ _ ltac:(eassumption)). reflexivity.
Qed.

(** *** Lines that are not items *)

Lemma flush_open cl sec g :
  items g <> [] ->
  flush {| checklists := cl; current_section := sec;
           current_checklist := Some g |} = cl ++ [g].
Proof.
  intros H. unfold flush. cbn [current_checklist checklists].
  destruct (items g); [congruence|reflexivity].
Qed.

Lemma flush_of_pending cl g st :
  items g <> [] -> pending cl g st -> flush st = cl ++ [g].
Proof.
  intros Hg [[Hcl Hcur]|[Hcl Hcur]]; unfold flush; rewrite Hcur, Hcl.
  - destruct (items g); [congruence|reflexivity].
  - reflexivity.
Qed.

Lemma step_not_item_pending cl g st i line :
  items g <> [] -> not_item line -> pending cl g st ->
  pending cl g (step st i line).
Proof.
  intros Hg Hc Hp. unfold step. unfold not_item in Hc. rewrite Hc.
  destruct (section_match line).
  - right. cbn [checklists current_checklist].
    split; [apply flush_of_pending; assumption|reflexivity].
  - destruct Hp as [[Hcl Hcur]|[Hcl Hcur]]; rewrite Hcur.
    + destruct (truthy (strip line) && negb (startswith (lit "-") line))%bool.
      * right. cbn [checklists current_checklist]. split; [|reflexivity].
        apply flush_of_pending; [exact Hg|]. left. split; assumption.
      * left. split; assumption.
    + right. split; assumption.
Qed.

Lemma scan_not_item_pending cl g ls : forall st i,
  items g <> [] -> Forall not_item ls -> pending cl g st ->
  pending cl g (scan st i ls).
Proof.
  induction ls as [|l ls IH]; intros st i Hg Hall Hp; simpl; [exact Hp|].
  inversion Hall; subst. apply IH; try assumption.
  apply step_not_item_pending; assumption.
Qed.

(** *** An open group always holds an item *)




End ChecklistsFacts.

Module ChecklistsClaims.
Import Re Checklists ChecklistsFacts.

Lemma checklist_extract_join lines :
  Forall no_nl lines ->
  extract_checklists (join_nl lines) = extract_lines lines.
Proof.
  intros Hnl. unfold extract_checklists.
  destruct lines as [|l ls].
  - reflexivity.
  - rewrite split_join; [reflexivity|discriminate|exact Hnl].
Qed.

(** C5. Checklist grouping: a heading, then K >= 1 checklist-item lines,
    then an empty line, then lines that are not checklist items, yields
    exactly one group: it has the K item texts (trimmed) in document order,
    is attributed to the heading and starts on line 2. And for every input,
    every emitted group has at least one item. *)
Theorem checklist_grouping
    (h g : str) (ls ts prose : list str) (content : str) :
  section_match h = Some g ->
  matches_items ls ts ->
  ls <> [] ->
  Forall not_item prose ->
  Forall no_nl (h :: ls ++ [] :: prose) ->
  extract_checklists (join_nl (h :: ls ++ [] :: prose)) =
    [ {| section := strip g; items := map strip ts; line_number := 2 |} ]
  /\ length (map strip ts) = length ls
  /\ Forall (fun grp => items grp <> []) (extract_checklists content).
Proof.
  intros Hh Hitems Hne Hprose Hnl.
  split; [|split].
  - rewrite checklist_extract_join by exact Hnl. unfold extract_lines.
    cbn [scan]. unfold step at 1. rewrite Hh.
    change (flush init) with (@nil ChecklistGroup).
    rewrite checklist_scan_app.
    destruct ls as [|l ls]; [congruence|].
    destruct ts as [|t ts]; [inversion Hitems|].
    rewrite (scan_items_fresh l ls t ts [] (strip g) 2 Hitems).
    apply (flush_of_pending []).
    + discriminate.
    + apply scan_not_item_pending.
      * discriminate.
      * constructor; [reflexivity|exact Hprose].
      * left. split; reflexivity.
  - rewrite length_map. symmetry. exact (Forall2_length _ _ _ Hitems).
  - apply extract_checklists_nonempty.
Qed.

Lemma checklist_grouping_witness :
  extract_checklists
    (join_nl (lit "## Review" ::
              [lit "- [ ] Check input "; lit "- [x] Verify output"] ++
              [] :: [lit "Some prose."; lit "- plain item"; lit "## Next"])) =
    [ {| section := strip (lit "Review");
         items := map strip [lit "Check input "; lit "Verify output"];
         line_number := 2 |} ]
  /\ length (map strip [lit "Check input "; lit "Verify output"]) = 2
  /\ Forall (fun grp => items grp <> [])
       (extract_checklists (lit "- [ ] ")).
Proof.
  apply (checklist_grouping (lit "## Review") (lit "Review")
           [lit "- [ ] Check input "; lit "- [x] Verify output"]
           [lit "Check input "; lit "Verify output"]
           [lit "Some prose."; lit "- plain item"; lit "## Next"]
           (lit "- [ ] ")).
  - reflexivity.
  - repeat constructor.
  - discriminate.
  - repeat constructor.
  - repeat constructor.
Defined.

(** *** The extractor does not track code fences *)

(** C9. The checklist extractor is not code-fence-aware. In [fenced_doc]
    lines 3 to 5 are the body of a fenced code block; still the checkbox
    line 3 opens a group under the real heading, the heading-like line 4
    flushes that open group and becomes the current section, and the
    checkbox line 5 is extracted as an item attributed to it. *)
Theorem checklists_ignore_fences :
  CodeBlocks.extract_code_blocks fenced_doc =
    Some [ {| CodeBlocks.language := [];
              CodeBlocks.code :=
                join_nl [lit "- [ ] a"; lit "# fake"; lit "- [x] b"];
              CodeBlocks.line_number := 2 |} ]
  /\ scan init 1 [lit "# Real"; lit "```"; lit "- [ ] a"] =
       {| checklists := []; current_section := lit "Real";
          current_checklist :=
            Some {| section := lit "Real"; items := [lit "a"];
                    line_number := 3 |} |}
  /\ step (scan init 1 [lit "# Real"; lit "```"; lit "- [ ] a"]) 4
          (lit "# fake") =
       {| checklists :=
            [ {| section := lit "Real"; items := [lit "a"];
                 line_number := 3 |} ];
          current_section := lit "fake";
          current_checklist := None |}
  /\ extract_checklists fenced_doc =
       [ {| section := lit "Real"; items := [lit "a"]; line_number := 3 |};
         {| section := lit "fake"; items := [lit "b"]; line_number := 5 |} ].
Proof. repeat split; reflexivity. Qed.

(** *** Indented items *)



(** The sub-item is lost and the checklist is split in two groups. *)
Example indented_item_splits :
  extract_checklists
    (join_nl [lit "# Steps"; lit "- [ ] first"; lit "  - [ ] nested";
              lit "- [ ] second"]) =
  [ {| section := lit "Steps"; items := [lit "first"]; line_number := 2 |};
    {| section := lit "Steps"; items := [lit "second"]; line_number := 4 |} ].
Proof. reflexivity. Qed.

End ChecklistsClaims.

(** ** Properties of the duplicate check *)

Module DuplicatesFacts.
Import Checklists Duplicates.

Lemma count_of_add k k' m :
  count_of k' (counter_add k m) =
  if str_eq_dec k' k then S (count_of k m) else count_of k' m.
Proof.
  induction m as [|[k0 n] m IH]; simpl.
  - destruct (str_eq_dec k' k); reflexivity.
  - destruct (str_eq_dec k k0) as [->|Hne]; simpl.
    + destruct (str_eq_dec k' k0); reflexivity.
    + destruct (str_eq_dec k' k0) as [->|Hne'].
      * destruct (str_eq_dec k0 k); [congruence|reflexivity].
      * exact IH.
Qed.

Lemma keys_add k m :
  map fst (counter_add k m) =
  if in_dec str_eq_dec k (map fst m) then map fst m else map fst m ++ [k].
Proof.
  induction m as [|[k0 n] m IH]; simpl; [reflexivity|].
  destruct (str_eq_dec k k0) as [->|Hne]; simpl.
  - destruct (str_eq_dec k0 k0); [reflexivity|congruence].
  - rewrite IH. destruct (str_eq_dec k0 k); [congruence|].
    destruct (in_dec str_eq_dec k (map fst m)); reflexivity.
Qed.

Lemma counts_add m l k : counts m l -> counts (counter_add k m) (l ++ [k]).
Proof.
  intros (Hnd & Hkeys & Hcnt). split; [|split].
  - rewrite keys_add. destruct (in_dec str_eq_dec k (map fst m)); [exact Hnd|].
    apply NoDup_app. split; [exact Hnd|]. split.
    + intros x Hx [->|[]]%list_elem_of_In. apply n, list_elem_of_In, Hx.
    + apply NoDup_singleton.
  - intros k'. rewrite keys_add, !in_app_iff.
    destruct (in_dec str_eq_dec k (map fst m)) as [Hin|Hnin].
    + rewrite <- Hkeys. split; [tauto|].
      intros [H|[<-|[]]]; assumption.
    + rewrite in_app_iff, <- Hkeys. tauto.
  - intros k'. rewrite count_of_add, count_occ_app. simpl.
    rewrite !Hcnt.
    destruct (str_eq_dec k' k) as [E|Hne]; destruct (str_eq_dec k k');
      subst; try congruence; lia.
Qed.

Lemma counter_of_snoc l k :
  counter_of (l ++ [k]) = counter_add k (counter_of l).
Proof. unfold counter_of. rewrite fold_left_app. reflexivity. Qed.

Lemma counts_counter_of l : counts (counter_of l) l.
Proof.
  induction l as [|k l IH] using rev_ind.
  - split; [constructor|]. split; [intros k; reflexivity|reflexivity].
  - rewrite counter_of_snoc. apply counts_add, IH.
Qed.

Lemma in_counts m l k n :
  counts m l -> In (k, n) m -> In k l /\ n = count_occ str_eq_dec l k.
Proof.
  intros (Hnd & Hkeys & Hcnt) Hin. split.
  - apply Hkeys. apply (in_map fst) in Hin. exact Hin.
  - rewrite <- Hcnt. clear Hkeys Hcnt.
    induction m as [|[k0 n0] m IH]; [destruct Hin|].
    simpl in Hnd. apply NoDup_cons in Hnd. destruct Hnd as [Hk0 Hnd].
    simpl. destruct Hin as [[= -> ->]|Hin].
    + destruct (str_eq_dec k k); [reflexivity|congruence].
    + destruct (str_eq_dec k k0) as [->|Hne].
      * exfalso. apply Hk0. apply list_elem_of_In.
        apply (in_map fst) in Hin. exact Hin.
      * apply IH; assumption.
Qed.

Lemma counts_in m l k :
  counts m l -> In k l -> In (k, count_occ str_eq_dec l k) m.
Proof.
  intros (Hnd & Hkeys & Hcnt) Hin. rewrite <- Hcnt.
  apply Hkeys in Hin. clear Hkeys Hcnt Hnd.
  induction m as [|[k0 n0] m IH]; [destruct Hin|].
  simpl. destruct (str_eq_dec k k0) as [->|Hne].
  - left. reflexivity.
  - right. apply IH. destruct Hin as [Hin|Hin]; [simpl in Hin; congruence|exact Hin].
Qed.

End DuplicatesFacts.

Module DuplicatesClaims.
Import Checklists Duplicates DuplicatesFacts.

Lemma group_duplicates_nil g :
  group_duplicates g = [] <-> List.NoDup (map norm (items g)).
Proof.
  unfold group_duplicates. rewrite flat_map_nil.
  pose proof (counts_counter_of (map norm (items g))) as Hc.
  rewrite (NoDup_count_occ str_eq_dec). split.
  - intros H k.
    destruct (in_dec str_eq_dec k (map norm (items g))) as [Hin|Hnin].
    + specialize (H _ (counts_in _ _ _ Hc Hin)). cbn [fst snd] in H.
      destruct (Nat.ltb_spec 1 (count_occ str_eq_dec (map norm (items g)) k));
        [discriminate H|lia].
    + apply (count_occ_not_In str_eq_dec) in Hnin. lia.
  - intros H [k n] Hin. destruct (in_counts _ _ _ _ Hc Hin) as [_ ->].
    cbn [fst snd]. specialize (H k).
    destruct (Nat.ltb_spec 1 (count_occ str_eq_dec (map norm (items g)) k));
      [lia|reflexivity].
Qed.

Lemma duplicate_pair_iff g :
  has_duplicate_pair g <-> ~ List.NoDup (map norm (items g)).
Proof.
  split.
  - intros (i & j & a & b & Hij & Hi & Hj & Hab) Hnd.
    rewrite NoDup_nth_error in Hnd.
    assert (i = j); [|lia]. apply Hnd.
    + rewrite length_map. apply nth_error_Some. rewrite Hi. discriminate.
    + rewrite !nth_error_map, Hi, Hj. simpl. rewrite Hab. reflexivity.
  - intros H. destruct (repeated_pair str_eq_dec _ H) as (i & j & k & Hij & Hi & Hj).
    rewrite nth_error_map in Hi, Hj.
    destruct (nth_error (items g) i) as [a|] eqn:Ea; [|discriminate].
    destruct (nth_error (items g) j) as [b|] eqn:Eb; [|discriminate].
    simpl in Hi, Hj. exists i, j, a, b.
    split; [exact Hij|]. split; [exact Ea|]. split; [exact Eb|].
    congruence.
Qed.

Lemma ListNoDup_dec (l : list str) : {List.NoDup l} + {~ List.NoDup l}.
Proof.
  induction l as [|x l [IH|IH]].
  - left. constructor.
  - destruct (in_dec str_eq_dec x l) as [Hin|Hnin].
    + right. intros H. inversion H; contradiction.
    + left. constructor; assumption.
  - right. intros H. inversion H; contradiction.
Qed.

Lemma check_passes_iff gs :
  no_duplicates_check gs = true <->
  forall g, In g gs -> List.NoDup (map norm (items g)).
Proof.
  unfold no_duplicates_check. rewrite Nat.eqb_eq, length_zero_iff_nil.
  unfold find_duplicates. rewrite flat_map_nil.
  split; intros H g Hg; apply group_duplicates_nil, H, Hg.
Qed.

Lemma check_fails_iff gs :
  no_duplicates_check gs = false <->
  exists g, In g gs /\ has_duplicate_pair g.
Proof.
  split.
  - intros H. induction gs as [|g gs IH].
    + discriminate H.
    + destruct (ListNoDup_dec (map norm (items g))) as [Hnd|Hd].
      * destruct IH as (g' & Hin & Hp).
        -- destruct (no_duplicates_check gs) eqn:E; [|reflexivity].
           rewrite check_passes_iff in E.
           assert (no_duplicates_check (g :: gs) = true); [|congruence].
           apply check_passes_iff. intros g' [<-|Hg']; [exact Hnd|].
           apply E, Hg'.
        -- exists g'. split; [right; exact Hin|exact Hp].
      * exists g. split; [left; reflexivity|]. apply duplicate_pair_iff, Hd.
  - intros (g & Hin & Hp). destruct (no_duplicates_check gs) eqn:E;
      [|reflexivity].
    rewrite check_passes_iff in E. apply duplicate_pair_iff in Hp.
    exfalso. apply Hp, E, Hin.
Qed.

(** C7. The duplicate check fails exactly when some extracted group holds
    two items, at different positions, whose lower-cased and trimmed texts
    are equal; it passes exactly when in every group these normalised texts
    are pairwise distinct; and the group ["Check input", "check input",
    "Check input "] is reported as one duplicate, of count 3. *)
Theorem duplicate_detection_exact :
  (forall content,
     test_no_duplicate_checklist_items content = false <->
     exists g, In g (extract_checklists content) /\ has_duplicate_pair g)
  /\ (forall gs,
        no_duplicates_check gs = true <->
        forall g, In g gs -> List.NoDup (map norm (items g)))
  /\ find_duplicates [variants] =
       [ {| dup_section := lit "Review"; dup_item := lit "check input";
            dup_count := 3 |} ]
  /\ no_duplicates_check [variants] = false.
Proof.
  split; [|split; [|split]].
  - intros content. apply check_fails_iff.
  - apply check_passes_iff.
  - reflexivity.
  - reflexivity.
Qed.

End DuplicatesClaims.

(** ** Properties of the link check *)

Module LinksFacts.
Import Links.

Example find_links_two :
  find_links (lit "see [a](b) and [[c]](d e) or [x] (y) [ ](z)") =
  [ (lit "a", lit "b"); (lit " ", lit "z") ].
Proof. reflexivity. Qed.

Example find_links_nested :
  find_links (lit "[[](u)") = [ (lit "[", lit "u") ].
Proof. reflexivity. Qed.

Lemma link_chars t u post :
  link t u ++ post =
  "["%char :: t ++ "]"%char :: "("%char :: u ++ ")"%char :: post.
Proof.
  unfold link, lit. cbn [list_ascii_of_string app].
  rewrite <- !app_assoc. cbn [app]. rewrite <- !app_assoc. reflexivity.
Qed.

Lemma link_match_at_link t u post :
  Forall (fun c => is_rbracket c = false) t ->
  Forall (fun c => is_rparen c = false) u ->
  link_match_at (link t u ++ post) = Some (t, u, length t + length u + 4).
Proof.
  intros Ht Hu. rewrite link_chars.
  unfold link_match_at.
  change (is_lbracket "[") with true. cbn iota.
  assert (Ht' : Forall (fun x => not_rbracket x = true) t).
  { eapply Forall_impl; [exact Ht|]. intros c Hc. unfold not_rbracket.
    simpl in Hc. rewrite Hc. reflexivity. }
  assert (Hu' : Forall (fun x => not_rparen x = true) u).
  { eapply Forall_impl; [exact Hu|]. intros c Hc. unfold not_rparen.
    simpl in Hc. rewrite Hc. reflexivity. }
  rewrite (drop_while_stop not_rbracket t "]"%char) by (exact Ht' || reflexivity).
  change (is_lparen "(") with true. cbn iota.
  rewrite (drop_while_stop not_rparen u ")"%char) by (exact Hu' || reflexivity).
  rewrite (take_while_stop not_rbracket t "]"%char) by (exact Ht' || reflexivity).
  rewrite (take_while_stop not_rparen u ")"%char) by (exact Hu' || reflexivity).
  reflexivity.
Qed.

Lemma links_finditer_skip m post :
  finditer_from (length m) (m ++ post) = finditer_from 0 post.
Proof.
  induction m as [|c m IH]; simpl; [|exact IH].
  destruct post; reflexivity.
Qed.

Lemma finditer_no_bracket pre s :
  Forall (fun c => is_lbracket c = false) pre ->
  finditer_from 0 (pre ++ s) = finditer_from 0 s.
Proof.
  induction 1 as [|c pre Hc _ IH]; [reflexivity|].
  cbn [app finditer_from]. unfold link_match_at. rewrite Hc. exact IH.
Qed.

(** The first link of a document: nothing before it opens a bracket. *)
Lemma find_links_first pre t u post :
  Forall (fun c => is_lbracket c = false) pre ->
  Forall (fun c => is_rbracket c = false) t ->
  Forall (fun c => is_rparen c = false) u ->
  find_links (pre ++ link t u ++ post) = (t, u) :: find_links post.
Proof.
  intros Hpre Ht Hu. unfold find_links.
  rewrite finditer_no_bracket by exact Hpre.
  pose proof (link_match_at_link t u post Ht Hu) as Hm.
  rewrite link_chars in *. cbn [finditer_from]. rewrite Hm. f_equal.
  replace (length t + length u + 4)
    with (S (length (t ++ "]"%char :: "("%char :: u ++ [")"%char])))
    by (rewrite !length_app; simpl; rewrite length_app; simpl; lia).
  cbn [pred].
  rewrite <- (links_finditer_skip (t ++ "]"%char :: "("%char :: u ++ [")"%char]) post).
  rewrite <- !app_assoc. cbn [app]. rewrite <- !app_assoc. reflexivity.
Qed.

End LinksFacts.

Module LinksClaims.
Import Links LinksFacts.

Lemma link_issues_nil name t u :
  link_issues name (t, u) = [] <-> ~ empty_text t /\ ~ padded_url u.
Proof.
  unfold link_issues, empty_text, padded_url, str_eqb.
  destruct (strip t) as [|c r] eqn:Et; cbn [truthy negb].
  - split; [discriminate|]. intros [H _]. exfalso. apply H. reflexivity.
  - destruct (List.list_eq_dec ascii_dec (strip u) u) as [Eu|Eu];
      cbn [negb app].
    + split; [|reflexivity]. intros _. split; [discriminate|].
      intros H. apply H, Eu.
    + split; [discriminate|]. intros [_ H]. exfalso. apply H, Eu.
Qed.

Lemma malformed_nil files :
  malformed_links files = [] <->
  forall f l, In f files -> In l (find_links (snd f)) ->
    ~ empty_text (fst l) /\ ~ padded_url (snd l).
Proof.
  unfold malformed_links. rewrite flat_map_nil. split.
  - intros H f [t u] Hf Hl. specialize (H f Hf).
    rewrite flat_map_nil in H.
    apply (link_issues_nil (fst f)), H, Hl.
  - intros H f Hf. apply flat_map_nil. intros [t u] Hl.
    apply link_issues_nil. exact (H f (t, u) Hf Hl).
Qed.

Lemma no_whitespace_forall u :
  ~ has_whitespace u -> Forall (fun c => is_space c = false) u.
Proof.
  intros H. induction u as [|c u IH]; constructor.
  - destruct (is_space c) eqn:E; [|reflexivity].
    exfalso. apply H. left. exact E.
  - apply IH. intros H'. apply H. right. exact H'.
Qed.

Lemma test_true_iff files :
  test_link_format_valid files = true <-> malformed_links files = [].
Proof.
  unfold test_link_format_valid. rewrite Nat.eqb_eq.
  apply length_zero_iff_nil.
Qed.

(** C8 as stated fails: the URL of [[a](b c)] contains a whitespace
    character, and the check passes. *)
Lemma internal_whitespace_passes :
  find_links (lit "[a](b c)") = [ (lit "a", lit "b c") ] /\
  has_whitespace (lit "b c") /\
  test_link_format_valid [ (lit "doc.md", lit "[a](b c)") ] = true.
Proof.
  split; [reflexivity|]. split; [|reflexivity].
  right. left. reflexivity.
Qed.

(** C8, amended. The link check fails exactly when some match of the link
    pattern has a text that is empty or only whitespace, or a URL with
    leading or trailing whitespace. In particular a document whose first
    link [[t](u)] is of that kind fails, and files whose every link has a
    non-empty text and a URL free of whitespace pass. *)
Theorem link_check_exact
    (files : list (str * str)) (name pre t u post : str) :
  Forall (fun c => is_lbracket c = false) pre ->
  Forall (fun c => is_rbracket c = false) t ->
  Forall (fun c => is_rparen c = false) u ->
  (test_link_format_valid files = false <->
     exists f l, In f files /\ In l (find_links (snd f)) /\
       (empty_text (fst l) \/ padded_url (snd l)))
  /\ (empty_text t \/ padded_url u ->
      test_link_format_valid [ (name, pre ++ link t u ++ post) ] = false)
  /\ ((forall f l, In f files -> In l (find_links (snd f)) ->
         ~ empty_text (fst l) /\ ~ has_whitespace (snd l)) ->
      test_link_format_valid files = true).
Proof.
  intros Hpre Ht Hu.
  assert (Hfail : forall fs,
    (exists f l, In f fs /\ In l (find_links (snd f)) /\
       (empty_text (fst l) \/ padded_url (snd l))) ->
    test_link_format_valid fs = false).
  { intros fs (f & l & Hf & Hl & Hbad).
    destruct (test_link_format_valid fs) eqn:E; [|reflexivity].
    apply test_true_iff in E. rewrite malformed_nil in E.
    destruct (E f l Hf Hl) as [H1 H2]. tauto. }
  split; [|split].
  - split; [|apply Hfail].
    intros H. induction files as [|f fs IH]; [discriminate H|].
    destruct (malformed_links [f]) as [|mf mfs] eqn:Ef.
    + destruct IH as (f' & l & Hf' & Hl & Hbad).
      * unfold test_link_format_valid, malformed_links in *.
        cbn [flat_map] in H, Ef. rewrite app_nil_r in Ef.
        rewrite Ef in H. exact H.
      * exists f', l. split; [right; exact Hf'|]. split; assumption.
    + clear IH H. unfold malformed_links in Ef. cbn [flat_map] in Ef.
      rewrite app_nil_r in Ef.
      assert (Hex : exists l, In l (find_links (snd f)) /\
                      link_issues (fst f) l <> []).
      { induction (find_links (snd f)) as [|l ls IHl]; [discriminate Ef|].
        cbn [flat_map] in Ef.
        destruct (link_issues (fst f) l) as [|m0 ms] eqn:El.
        - destruct (IHl Ef) as (l' & Hl' & Hne).
          exists l'. split; [right; exact Hl'|exact Hne].
        - exists l. split; [left; reflexivity|]. rewrite El. discriminate. }
      destruct Hex as ([t' u'] & Hl & Hne).
      exists f, (t', u'). split; [left; reflexivity|]. split; [exact Hl|].
      cbn [fst snd].
      destruct (List.list_eq_dec ascii_dec (strip t') []) as [Et|Et];
        [left; exact Et|].
      destruct (List.list_eq_dec ascii_dec (strip u') u') as [Eu|Eu];
        [|right; exact Eu].
      exfalso. apply Hne. apply link_issues_nil. split; [exact Et|].
      intros H'. apply H', Eu.
  - intros Hbad. apply Hfail.
    exists (name, pre ++ link t u ++ post), (t, u).
    split; [left; reflexivity|]. split; [|exact Hbad].
    cbn [snd]. rewrite find_links_first by assumption. left. reflexivity.
  - intros Hgood. apply test_true_iff, malformed_nil.
    intros f l Hf Hl. destruct (Hgood f l Hf Hl) as [H1 H2].
    split; [exact H1|]. intros Hp. apply Hp.
    apply strip_no_space, no_whitespace_forall, H2.
Qed.

Lemma link_check_exact_witness :
  (test_link_format_valid [ (lit "a.md", lit "ok [x](y)") ] = false <->
     exists f l, In f [ (lit "a.md", lit "ok [x](y)") ] /\
       In l (find_links (snd f)) /\
       (empty_text (fst l) \/ padded_url (snd l)))
  /\ (empty_text (lit " ") \/ padded_url (lit " http://e.org") ->
      test_link_format_valid
        [ (lit "b.md",
           lit "see " ++ link (lit " ") (lit " http://e.org") ++ lit " now") ]
      = false)
  /\ ((forall f l, In f [ (lit "a.md", lit "ok [x](y)") ] ->
         In l (find_links (snd f)) ->
         ~ empty_text (fst l) /\ ~ has_whitespace (snd l)) ->
      test_link_format_valid [ (lit "a.md", lit "ok [x](y)") ] = true).
Proof.
  apply (link_check_exact [ (lit "a.md", lit "ok [x](y)") ] (lit "b.md")
           (lit "see ") (lit " ") (lit " http://e.org") (lit " now")).
  - repeat constructor.
  - repeat constructor.
  - repeat constructor.
Defined.

Example empty_text_fails :
  test_link_format_valid [ (lit "doc.md", lit "[](http://e.org)") ] = false.
Proof. reflexivity. Qed.

Example padded_url_fails :
  test_link_format_valid [ (lit "doc.md", lit "[a]( http://e.org)") ] = false.
Proof. reflexivity. Qed.

End LinksClaims.

(** ** Properties of the section-set check *)

Module SectionsFacts.
Import Re Sections.

Example major_headings_plain :
  major_headings (lit "# T" ++ nl :: lit "## Overview" ++ nl :: lit "text"
                  ++ nl :: lit "### Sub" ++ nl :: lit "## Core  Phases ") =
  [lit "Overview"; lit "Core  Phases "].
Proof. reflexivity. Qed.

(** The whitespace after the two [#] may run over line ends. *)
Example major_headings_next_line :
  major_headings (lit "##" ++ nl :: nl :: lit "## A" ++ nl :: lit "## B") =
  [lit "## A"; lit "B"].
Proof. reflexivity. Qed.

Example normalize_example :
  normalize (lit "Chain-of-Thought (CoT) 2 ") = lit "chainofthought cot".
Proof. reflexivity. Qed.

Lemma hash_not_nl c : is_hash c = true -> is_nl c = false.
Proof. apply (is_char_excl_N 35 10). discriminate. Qed.

Lemma nl_not_hash : is_hash nl = false.
Proof. reflexivity. Qed.

Lemma nl_space c : is_nl c = true -> is_space c = true.
Proof. intros H. apply is_nl_spec in H. subst c. reflexivity. Qed.

(** Away from a line start nothing matches up to the next newline. *)
Lemma finditer_rest_of_line l s :
  no_nl l ->
  finditer_from 0 false (l ++ nl :: s) = finditer_from 0 true s.
Proof.
  induction 1 as [|c l Hc _ IH]; [reflexivity|].
  cbn [app finditer_from]. rewrite Hc. exact IH.
Qed.

Lemma finditer_rest_of_text l :
  no_nl l -> finditer_from 0 false l = [].
Proof.
  induction 1 as [|c l Hc _ IH]; [reflexivity|].
  cbn [finditer_from]. rewrite Hc. exact IH.
Qed.

(** Passing the characters of a match that stays on its line. *)
Lemma sections_finditer_skip m s :
  no_nl m ->
  finditer_from (length m) false (m ++ s) = finditer_from 0 false s.
Proof.
  induction 1 as [|c m Hc _ IH]; [reflexivity|].
  cbn [length app finditer_from]. rewrite Hc. exact IH.
Qed.

Lemma dot_plus_line c t s :
  no_nl (c :: t) -> (s = [] \/ exists s', s = nl :: s') ->
  dot_plus (c :: t ++ s) = Some (c :: t, s).
Proof.
  intros Hl Hs. unfold dot_plus.
  assert (Hp : Forall (fun x => negb (is_nl x) = true) (c :: t)).
  { eapply Forall_impl; [exact Hl|]. intros x Hx. simpl in Hx.
    rewrite Hx. reflexivity. }
  change (c :: t ++ s) with ((c :: t) ++ s).
  destruct Hs as [->|[s' ->]].
  - rewrite app_nil_r.
    assert (Ht : take_while (fun x => negb (is_nl x)) (c :: t) = c :: t
                 /\ drop_while (fun x => negb (is_nl x)) (c :: t) = []).
    { clear Hl. induction Hp as [|x l Hx _ [IH1 IH2]]; [split; reflexivity|].
      simpl. rewrite Hx, IH1, IH2. split; reflexivity. }
    destruct Ht as [-> ->]. reflexivity.
  - rewrite (take_while_stop _ (c :: t) nl s') by (exact Hp || reflexivity).
    rewrite (drop_while_stop _ (c :: t) nl s') by (exact Hp || reflexivity).
    reflexivity.
Qed.

Lemma ws_star_run {A} (k : str -> option A) ws c t r :
  Forall (fun x => is_space x = true) ws ->
  is_space c = false ->
  k (c :: t) = Some r -> ws_star k (ws ++ c :: t) = Some r.
Proof.
  intros Hws Hc Hk. induction Hws as [|w ws Hw _ IH]; cbn [app ws_star].
  - rewrite Hc. exact Hk.
  - rewrite Hw, IH. reflexivity.
Qed.

Lemma take_while_all p (s : str) : Forall (fun x => p x = true) (take_while p s).
Proof.
  induction s as [|c s IH]; simpl; [constructor|].
  destruct (p c) eqn:E; constructor; assumption.
Qed.

Lemma drop_while_head p (s : str) c t : drop_while p s = c :: t -> p c = false.
Proof.
  induction s as [|x s IH]; simpl; [discriminate|].
  destruct (p x) eqn:E; [exact IH|]. intros [= <- _]. exact E.
Qed.

Lemma major_match_heading l g s :
  no_nl l -> heading_text l = Some g -> line_end s ->
  major_match_at (l ++ s) = Some (g, length l).
Proof.
  intros Hl Hg Hs. destruct l as [|a [|b r]]; try discriminate Hg.
  unfold heading_text in Hg. cbn [app]. unfold major_match_at.
  destruct (is_hash a && is_hash b)%bool; [|discriminate Hg].
  destruct (take_while is_space r) as [|w0 ws] eqn:Et; [discriminate Hg|].
  destruct (drop_while is_space r) as [|c t] eqn:Ed; [discriminate Hg|].
  injection Hg as <-.
  pose proof (take_drop_while is_space r) as Hr. rewrite Et, Ed in Hr.
  pose proof (take_while_all is_space r) as Hall. rewrite Et in Hall.
  inversion Hall as [|? ? Hw0 Hws]; subst.
  assert (Hct : no_nl (c :: t)).
  { inversion Hl as [|? ? _ Hl1]; subst. inversion Hl1 as [|? ? _ Hl2]; subst.
    apply (Forall_app _ (w0 :: ws) (c :: t)) in Hl2.
    destruct Hl2 as [_ H]. exact H. }
  cbn [app]. rewrite <- app_assoc. cbn [app ws_plus]. rewrite Hw0.
  rewrite (ws_star_run dot_plus ws c (t ++ s) (c :: t, s)).
  - f_equal. f_equal. cbn [length]. rewrite !length_app. cbn [length].
    rewrite length_app. lia.
  - exact Hws.
  - exact (drop_while_head _ _ _ _ Ed).
  - apply dot_plus_line; assumption.
Qed.

Lemma major_match_none l s :
  titled l -> heading_text l = None -> line_end s ->
  major_match_at (l ++ s) = None.
Proof.
  intros Ht Hg Hs. destruct l as [|a [|b r]].
  - destruct Hs as [->|[s' ->]]; [reflexivity|]. cbn [app].
    unfold major_match_at. destruct s'; [reflexivity|].
    rewrite nl_not_hash. reflexivity.
  - destruct Hs as [->|[s' ->]]; [reflexivity|]. cbn [app].
    unfold major_match_at. rewrite nl_not_hash, andb_false_r. reflexivity.
  - cbn [app]. unfold major_match_at. unfold heading_text in Hg.
    unfold titled in Ht.
    destruct (is_hash a && is_hash b)%bool; [|reflexivity].
    specialize (Ht eq_refl).
    destruct (drop_while is_space r) as [|c t] eqn:Ed; [congruence|].
    destruct (take_while is_space r) as [|w0 ws] eqn:Et; [|discriminate Hg].
    destruct r as [|x r]; [discriminate Ed|].
    simpl in Et. destruct (is_space x) eqn:Ex; [discriminate Et|].
    cbn [app ws_plus]. rewrite Ex. reflexivity.
Qed.

Lemma finditer_line l s :
  no_nl l -> titled l ->
  finditer_from 0 true (l ++ nl :: s) =
  heading_list l ++ finditer_from 0 true s.
Proof.
  intros Hl Ht. unfold heading_list.
  destruct (heading_text l) as [g|] eqn:Hg.
  - pose proof (major_match_heading l g (nl :: s) Hl Hg
                  (or_intror (ex_intro _ s eq_refl))) as Hm.
    destruct l as [|a l']; [discriminate Hg|].
    cbn [app finditer_from]. cbn [app] in Hm. rewrite Hm.
    cbn [length pred app]. f_equal.
    inversion Hl as [|? ? Ha Hl']; subst.
    simpl in Ha. rewrite Ha.
    rewrite (sections_finditer_skip l' (nl :: s) Hl'). reflexivity.
  - pose proof (major_match_none l (nl :: s) Ht Hg
                  (or_intror (ex_intro _ s eq_refl))) as Hm.
    destruct l as [|a l'].
    + cbn [app finditer_from]. cbn [app] in Hm. rewrite Hm. reflexivity.
    + cbn [app finditer_from]. cbn [app] in Hm. rewrite Hm.
      inversion Hl as [|? ? Ha Hl']; subst. simpl in Ha. rewrite Ha.
      apply finditer_rest_of_line, Hl'.
Qed.

Lemma finditer_last l :
  no_nl l -> titled l -> finditer_from 0 true l = heading_list l.
Proof.
  intros Hl Ht. unfold heading_list.
  destruct (heading_text l) as [g|] eqn:Hg.
  - pose proof (major_match_heading l g [] Hl Hg (or_introl eq_refl)) as Hm.
    rewrite app_nil_r in Hm.
    destruct l as [|a l']; [discriminate Hg|].
    cbn [finditer_from]. rewrite Hm. cbn [length pred]. f_equal.
    inversion Hl as [|? ? Ha Hl']; subst. simpl in Ha. rewrite Ha.
    rewrite <- (app_nil_r l') at 2. rewrite (sections_finditer_skip l' [] Hl').
    reflexivity.
  - pose proof (major_match_none l [] Ht Hg (or_introl eq_refl)) as Hm.
    rewrite app_nil_r in Hm.
    destruct l as [|a l']; [reflexivity|].
    cbn [finditer_from]. rewrite Hm.
    inversion Hl as [|? ? Ha Hl']; subst. simpl in Ha. rewrite Ha.
    apply finditer_rest_of_text, Hl'.
Qed.

(** In a document whose second-level heading lines carry their text, the
    matches are the texts of those lines, in order. *)
Lemma major_headings_lines lines :
  Forall no_nl lines -> Forall titled lines ->
  major_headings (join_nl lines) = flat_map heading_list lines.
Proof.
  unfold major_headings.
  induction lines as [|l ls IH]; intros Hnl Ht; [reflexivity|].
  inversion Hnl as [|? ? Hl Hls]; subst. inversion Ht as [|? ? Htl Htls]; subst.
  destruct ls as [|l' ls].
  - cbn [join_nl flat_map]. rewrite app_nil_r. apply finditer_last; assumption.
  - change (join_nl (l :: l' :: ls)) with (l ++ nl :: join_nl (l' :: ls)).
    rewrite finditer_line by assumption.
    rewrite IH by assumption. reflexivity.
Qed.

End SectionsFacts.

Module SectionsClaims.
Import Re Sections SectionsFacts.

(** C6 as stated fails: after lower-casing and removing the characters
    that are neither lowercase letters nor spaces, "Overview 2" keeps its
    inner space and differs from "Overview"; the check trims the result
    and passes. *)
Lemma trailing_space_trimmed :
  spec_normalize (lit "Overview 2") = lit "overview " /\
  spec_normalize (lit "Overview") = lit "overview" /\
  spec_sections (lit "## Overview 2") <> spec_sections (lit "## Overview") /\
  test_full_copies_have_same_sections (lit "## Overview 2") (lit "## Overview")
    = Pass.
Proof.
  split; [reflexivity|]. split; [reflexivity|]. split.
  - unfold spec_sections.
    change (map spec_normalize (major_headings (lit "## Overview 2")))
      with [lit "overview "].
    change (map spec_normalize (major_headings (lit "## Overview")))
      with [lit "overview"].
    intros H.
    assert (Hin : lit "overview " ∈ (list_to_set [lit "overview"] : gset (list ascii))).
    { rewrite <- H. set_solver. }
    rewrite elem_of_list_to_set in Hin.
    apply list_elem_of_In in Hin. destruct Hin as [Hin|[]]. discriminate Hin.
  - unfold test_full_copies_have_same_sections, _get_major_sections.
    change (map normalize (major_headings (lit "## Overview 2")))
      with [lit "overview"].
    change (map normalize (major_headings (lit "## Overview")))
      with [lit "overview"].
    destruct (decide _) as [_|Hne]; [reflexivity|]. exfalso. apply Hne.
    reflexivity.
Qed.

Lemma sections_elem content (x : list ascii) :
  x ∈ _get_major_sections content <->
  exists h, In h (major_headings content) /\
    x = strip (List.filter kept (lower h)).
Proof.
  unfold _get_major_sections. rewrite elem_of_list_to_set, list_elem_of_In.
  rewrite in_map_iff. split.
  - intros (h & <- & Hh). exists h. split; [exact Hh|reflexivity].
  - intros (h & Hh & ->). exists h. split; [reflexivity|exact Hh].
Qed.

(** C6, amended. The section-set check takes group 1 of every match of the
    second-level heading pattern (in a document whose heading lines carry
    their text: the texts of those lines), normalises each by lower-casing,
    removing every character that is neither a lowercase letter a-z nor
    whitespace, and trimming leading and trailing whitespace; it passes
    exactly when the two sets are equal, and on failure it reports both
    differences, at least one of them non-empty. *)
Theorem section_set_check (main cskill : str) (lines : list str) :
  Forall no_nl lines ->
  Forall titled lines ->
  major_headings (join_nl lines) = flat_map heading_list lines
  /\ (forall x : list ascii,
        x ∈ _get_major_sections main <->
        exists h, In h (major_headings main) /\
          x = strip (List.filter kept (lower h)))
  /\ (test_full_copies_have_same_sections main cskill = Pass <->
      _get_major_sections main = _get_major_sections cskill)
  /\ (forall d1 d2,
        test_full_copies_have_same_sections main cskill
          = AssertionError d1 d2 ->
        d1 = _get_major_sections main ∖ _get_major_sections cskill /\
        d2 = _get_major_sections cskill ∖ _get_major_sections main /\
        exists x, x ∈ d1 \/ x ∈ d2).
Proof.
  intros Hnl Ht. split; [apply major_headings_lines; assumption|].
  split; [apply sections_elem|].
  unfold test_full_copies_have_same_sections.
  set (A := _get_major_sections main). set (B := _get_major_sections cskill).
  destruct (decide (A = B)) as [E|Hne].
  - split; [tauto|]. intros d1 d2 H. discriminate H.
  - split; [split; [discriminate|tauto]|].
    intros d1 d2 [= <- <-]. split; [reflexivity|]. split; [reflexivity|].
    destruct (set_choose_or_empty ((A ∖ B) ∪ (B ∖ A))) as [[x Hx]|Hempty].
    + exists x. apply elem_of_union in Hx. exact Hx.
    + exfalso. apply Hne. apply set_eq. intros x.
      assert (Hx : x ∉ (A ∖ B) ∪ (B ∖ A))
        by (rewrite Hempty; apply not_elem_of_empty).
      rewrite elem_of_union, !elem_of_difference in Hx.
      destruct (decide (x ∈ A)) as [Ha|Ha];
        destruct (decide (x ∈ B)) as [Hb|Hb]; tauto.
Qed.

Lemma section_set_check_witness :
  major_headings (join_nl [lit "# Skill"; lit "## Overview"; lit "text";
                           lit "##   Core Phases"])
    = flat_map heading_list [lit "# Skill"; lit "## Overview"; lit "text";
                             lit "##   Core Phases"]
  /\ (forall x : list ascii,
        x ∈ _get_major_sections (lit "## A") <->
        exists h, In h (major_headings (lit "## A")) /\
          x = strip (List.filter kept (lower h)))
  /\ (test_full_copies_have_same_sections (lit "## A") (lit "## B") = Pass <->
      _get_major_sections (lit "## A") = _get_major_sections (lit "## B"))
  /\ (forall d1 d2,
        test_full_copies_have_same_sections (lit "## A") (lit "## B")
          = AssertionError d1 d2 ->
        d1 = _get_major_sections (lit "## A") ∖ _get_major_sections (lit "## B") /\
        d2 = _get_major_sections (lit "## B") ∖ _get_major_sections (lit "## A") /\
        exists x, x ∈ d1 \/ x ∈ d2).
Proof.
  apply (section_set_check (lit "## A") (lit "## B")
           [lit "# Skill"; lit "## Overview"; lit "text";
            lit "##   Core Phases"]).
  - repeat constructor.
  - repeat constructor; simpl; intros; discriminate.
Defined.

(** Sections "Overview" and "Planning" against "Overview" and "Extra":
    the check fails and reports "planning" only in the first document and
    "extra" only in the second. *)
Example section_diff_both_ways :
  exists d1 d2,
    test_full_copies_have_same_sections
      (lit "## Overview" ++ nl :: lit "## Planning")
      (lit "## Overview" ++ nl :: lit "## Extra") = AssertionError d1 d2
    /\ d1 = {[ lit "planning" ]} /\ d2 = {[ lit "extra" ]}.
Proof.
  unfold test_full_copies_have_same_sections, _get_major_sections.
  change (map normalize (major_headings
            (lit "## Overview" ++ nl :: lit "## Planning")))
    with [lit "overview"; lit "planning"].
  change (map normalize (major_headings
            (lit "## Overview" ++ nl :: lit "## Extra")))
    with [lit "overview"; lit "extra"].
  destruct (decide _) as [E|_].
  - exfalso.
    assert (H : lit "planning" ∈
                (list_to_set [lit "overview"; lit "extra"] : gset (list ascii)))
      by (rewrite <- E; set_solver).
    rewrite elem_of_list_to_set in H. apply list_elem_of_In in H.
    destruct H as [H|[H|[]]]; discriminate H.
  - eexists _, _. split; [reflexivity|].
    split; apply set_eq; intros x;
      rewrite elem_of_difference, !elem_of_list_to_set, elem_of_singleton,
        !list_elem_of_In; cbn [In]; split.
    + intros [[H|[H|[]]] Hn]; [|symmetry; exact H].
      exfalso. apply Hn. left. exact H.
    + intros ->. split; [right; left; reflexivity|].
      intros [H|[H|[]]]; discriminate H.
    + intros [[H|[H|[]]] Hn]; [|symmetry; exact H].
      exfalso. apply Hn. left. exact H.
    + intros ->. split; [right; left; reflexivity|].
      intros [H|[H|[]]]; discriminate H.
Qed.

End SectionsClaims.

(** ** Properties of the identity check *)

Module IdentityFacts.
Import Sha256 Identity.

Example sha256_abc :
  hexdigest (encode (lit "abc")) =
  lit "ba7816bf8f01cfea414140de5dae2223b00361a396177a9cb410ff61f20015ad".
Proof. vm_compute. reflexivity. Qed.

Example sha256_empty :
  hexdigest (encode []) =
  lit "e3b0c44298fc1c149afbf4c8996fb92427ae41e4649b934ca495991b7852b855".
Proof. vm_compute. reflexivity. Qed.

Example sha256_two_blocks :
  hexdigest
    (encode (lit "abcdbcdecdefdefgefghfghighijhijkijkljklmklmnlmnomnopnopq")) =
  lit "248d6a61d20638b8e5c026930c3e6039a33ce45964ff2167f6ecedd419db06c1".
Proof. vm_compute. reflexivity. Qed.

Example sha256_two_byte_char :
  hexdigest (encode [ascii_of_N 233]) =
  lit "4a99557e4033c3539de2eb65472017cad5f9557f7a0625a09f1c3f6e2ba69c4c".
Proof. vm_compute. reflexivity. Qed.

(** *** The digest is one of finitely many values *)

#[local] Open Scope N_scope.










#[local] Close Scope N_scope.


(** *** The hexadecimal form loses nothing *)










End IdentityFacts.

Module IdentityClaims.
Import Sha256 Identity IdentityFacts.



End IdentityClaims.

(** ** More properties of [extract_code_blocks] and of its callers *)

(** A fact about one character, settled on each of the 256 characters. *)
Ltac char_cases c :=
  destruct c as [[] [] [] [] [] [] [] []]; intros;
  solve [reflexivity | discriminate].

Module CodeChecksFacts.
Import CodeBlocks CodeBlocksFacts CodeChecks.

Lemma join_split s : join_nl (split_nl s) = s.
Proof.
  induction s as [|c s IH]; [reflexivity|].
  cbn [split_nl]. destruct (is_nl c) eqn:Ec.
  - apply is_nl_spec in Ec. subst c.
    destruct (split_nl s) as [|l ls] eqn:E.
    + exfalso. exact (split_nl_nonempty s E).
    + change (join_nl ([] :: l :: ls)) with (nl :: join_nl (l :: ls)).
      rewrite IH. reflexivity.
  - destruct (split_nl s) as [|l ls] eqn:E.
    + exfalso. exact (split_nl_nonempty s E).
    + rewrite <- IH. destruct ls; reflexivity.
Qed.

Lemma split_nl_no_nl s : Forall no_nl (split_nl s).
Proof.
  induction s as [|c s IH]; [repeat constructor|].
  cbn [split_nl]. destruct (is_nl c) eqn:Ec.
  - constructor; [constructor|exact IH].
  - destruct (split_nl s) as [|l ls]; [repeat constructor; exact Ec|].
    inversion IH; subst. constructor; [constructor; assumption|assumption].
Qed.

(** A scan keeps what each step keeps. *)
Lemma scan_invariant (P : list str -> State -> Prop) :
  (forall pre st l st',
     P pre st -> step st (S (length pre)) l = Some st' -> P (pre ++ [l]) st') ->
  forall ls pre st st',
    P pre st -> scan st (S (length pre)) ls = Some st' -> P (pre ++ ls) st'.
Proof.
  intros Hstep. induction ls as [|l ls IH]; intros pre st st' HP Hscan.
  - cbn in Hscan. injection Hscan as <-. rewrite app_nil_r. exact HP.
  - cbn [scan] in Hscan.
    destruct (step st (S (length pre)) l) as [st1|] eqn:E; [|discriminate].
    replace (pre ++ l :: ls) with ((pre ++ [l]) ++ ls)
      by (rewrite <- app_assoc; reflexivity).
    apply (IH (pre ++ [l]) st1 st').
    + exact (Hstep pre st l st1 HP E).
    + rewrite length_app. cbn [length]. rewrite Nat.add_1_r. exact Hscan.
Qed.

Lemma step_cases st i l st' :
  step st i l = Some st' ->
  (in_code_block st = false /\ startswith fence l = true /\
   st' = {| code_blocks := code_blocks st; in_code_block := true;
            current_block := Some {| ob_language := tag_of l; ob_code := [];
                                     ob_line_number := i |};
            start_line := i |}) \/
  (in_code_block st = false /\ startswith fence l = false /\ st' = st) \/
  (in_code_block st = true /\ startswith fence l = true /\
   exists b, current_block st = Some b /\
     st' = {| code_blocks := code_blocks st ++ [close_block b];
              in_code_block := false; current_block := None;
              start_line := start_line st |}) \/
  (in_code_block st = true /\ startswith fence l = false /\
   exists b, current_block st = Some b /\
     st' = {| code_blocks := code_blocks st; in_code_block := true;
              current_block :=
                Some {| ob_language := ob_language b;
                        ob_code := ob_code b ++ [l];
                        ob_line_number := ob_line_number b |};
              start_line := start_line st |}).
Proof.
  unfold step, code_fence_match, tag_of.
  destruct (in_code_block st); cbn [negb];
    destruct (startswith fence l); intros H.
  - destruct (current_block st) as [b|]; [|discriminate].
    injection H as <-. right. right. left. eauto.
  - destruct (current_block st) as [b|]; [|discriminate].
    injection H as <-. right. right. right. eauto.
  - injection H as <-. left. auto.
  - injection H as <-. right. left. auto.
Qed.

Lemma count_inv_step pre st l st' :
  count_inv pre st -> step st (S (length pre)) l = Some st' ->
  count_inv (pre ++ [l]) st'.
Proof.
  unfold count_inv, fence_lines. intros H Hs.
  rewrite List.filter_app, length_app. cbn [List.filter].
  destruct (step_cases _ _ _ _ Hs)
    as [(Hin & Hf & ->)|[(Hin & Hf & ->)|[(Hin & Hf & b & Hb & ->)
       |(Hin & Hf & b & Hb & ->)]]];
    rewrite Hf; rewrite Hin in H; cbn [code_blocks in_code_block length];
    try rewrite length_app; cbn [length]; rewrite ?Hin; lia.
Qed.

Lemma not_fence_split_join body :
  Forall not_fence body -> Forall no_nl body ->
  Forall not_fence (split_nl (join_nl body)).
Proof.
  intros Hf Hn. destruct body as [|l ls].
  - repeat constructor.
  - rewrite split_join; [exact Hf|discriminate|exact Hn].
Qed.

Lemma anchored_app pre l b : anchored pre b -> anchored (pre ++ [l]) b.
Proof.
  intros (x & Hx & H). exists x. split; [|exact H].
  rewrite nth_error_app1; [exact Hx|].
  apply nth_error_Some. rewrite Hx. discriminate.
Qed.

Lemma anchored_inv_step pre st l st' :
  anchored_inv pre st -> step st (S (length pre)) l = Some st' ->
  anchored_inv (pre ++ [l]) st'.
Proof.
  intros H Hs Hnl. apply Forall_app in Hnl. destruct Hnl as [Hpre Hl].
  inversion Hl as [|? ? Hl1 _]; subst.
  destruct (H Hpre) as [Hcb Hopen].
  assert (Hcb' : Forall (anchored (pre ++ [l])) (code_blocks st)).
  { eapply Forall_impl; [exact Hcb|]. intros b. apply anchored_app. }
  assert (Hnew : nth_error (pre ++ [l]) (S (length pre) - 1) = Some l).
  { replace (S (length pre) - 1) with (length pre) by lia.
    rewrite nth_error_app2 by lia. rewrite Nat.sub_diag. reflexivity. }
  assert (Hold : forall k x, nth_error pre k = Some x ->
                   nth_error (pre ++ [l]) k = Some x).
  { intros k x Hk. rewrite nth_error_app1; [exact Hk|].
    apply nth_error_Some. rewrite Hk. discriminate. }
  destruct (step_cases _ _ _ _ Hs)
    as [(Hin & Hf & ->)|[(Hin & Hf & ->)|[(Hin & Hf & b & Hb & ->)
       |(Hin & Hf & b & Hb & ->)]]]; cbn [code_blocks current_block].
  - split; [exact Hcb'|]. intros b [= <-]. cbn.
    exists l. split; [exact Hnew|]. split; [lia|].
    split; [exact Hf|]. split; [reflexivity|]. split; constructor.
  - split; [exact Hcb'|]. intros b Hb.
    destruct (Hopen b Hb) as (x & Hx & H'). exists x.
    split; [apply Hold, Hx|exact H'].
  - split; [|intros b' [=]].
    apply Forall_app. split; [exact Hcb'|]. constructor; [|constructor].
    destruct (Hopen b Hb) as (x & Hx & H1 & Hfx & Hlang & Hbody & Hbnl).
    exists x. cbn. split; [apply Hold, Hx|]. split; [exact H1|].
    split; [exact Hfx|]. split; [exact Hlang|].
    apply not_fence_split_join; assumption.
  - split; [exact Hcb'|]. intros b' [= <-]. cbn.
    destruct (Hopen b Hb) as (x & Hx & H1 & Hfx & Hlang & Hbody & Hbnl).
    exists x. split; [apply Hold, Hx|]. split; [exact H1|].
    split; [exact Hfx|]. split; [exact Hlang|].
    split; apply Forall_app; (split; [assumption|]);
      constructor; [exact Hf|constructor|exact Hl1|constructor].
Qed.

Lemma increasing_snoc prev ns n :
  increasing prev ns -> prev < n -> Forall (fun m => m < n) ns ->
  increasing prev (ns ++ [n]).
Proof.
  revert prev. induction ns as [|m ns IH]; intros prev Hi Hp Hall.
  - cbn. auto.
  - cbn in *. destruct Hi as [Hpm Hi]. inversion Hall; subst.
    split; [exact Hpm|]. apply IH; assumption.
Qed.

Lemma increasing_inv_step pre st l st' :
  increasing_inv pre st -> step st (S (length pre)) l = Some st' ->
  increasing_inv (pre ++ [l]) st'.
Proof.
  intros (Hinc & Hle & Hopen) Hs. unfold increasing_inv.
  rewrite length_app. cbn [length].
  assert (Hle' : Forall (fun b => line_number b <= length pre + 1)
                   (code_blocks st)).
  { eapply Forall_impl; [exact Hle|]. cbn. intros; lia. }
  destruct (step_cases _ _ _ _ Hs)
    as [(Hin & Hf & ->)|[(Hin & Hf & ->)|[(Hin & Hf & b & Hb & ->)
       |(Hin & Hf & b & Hb & ->)]]]; cbn [code_blocks current_block].
  - split; [exact Hinc|]. split; [exact Hle'|].
    intros b [= <-]. cbn. split; [lia|].
    eapply Forall_impl; [exact Hle|]. cbn. intros; lia.
  - split; [exact Hinc|]. split; [exact Hle'|].
    intros b Hb. destruct (Hopen b Hb) as [H1 H2]. split; [lia|exact H2].
  - destruct (Hopen b Hb) as [H1 H2]. split; [|split; [|intros b' [=]]].
    + rewrite map_app. cbn [map]. apply increasing_snoc.
      * exact Hinc.
      * cbn. lia.
      * apply Forall_map. exact H2.
    + apply Forall_app. split; [exact Hle'|].
      constructor; [cbn; lia|constructor].
  - split; [exact Hinc|]. split; [exact Hle'|].
    intros b' [= <-]. cbn. destruct (Hopen b Hb) as [H1 H2].
    split; [lia|exact H2].
Qed.

Lemma scan_from_start (P : list str -> State -> Prop) lines st :
  (forall pre st l st',
     P pre st -> step st (S (length pre)) l = Some st' -> P (pre ++ [l]) st') ->
  P [] init -> scan init 1 lines = Some st -> P lines st.
Proof.
  intros Hstep H0 Hscan.
  exact (scan_invariant P Hstep lines [] init st H0 Hscan).
Qed.

Lemma count_inv_final lines st :
  scan init 1 lines = Some st -> count_inv lines st.
Proof.
  apply (scan_from_start count_inv); [exact count_inv_step|reflexivity].
Qed.

(** The scan of any text ends, with a block for every two fence lines. *)
Lemma extract_scan content :
  exists st,
    scan init 1 (split_nl content) = Some st /\
    extract_code_blocks content = Some (code_blocks st) /\
    count_inv (split_nl content) st.
Proof.
  destruct (scan_total init 1 (split_nl content) consistent_init)
    as (st & Hscan & _).
  exists st. split; [exact Hscan|]. split.
  - unfold extract_code_blocks, extract_lines. rewrite Hscan. reflexivity.
  - exact (count_inv_final _ _ Hscan).
Qed.

Lemma extract_code_blocks_total content :
  exists blocks, extract_code_blocks content = Some blocks.
Proof. destruct (extract_scan content) as (st & _ & H & _). eauto. Qed.

Lemma extracted_anchored content blocks :
  extract_code_blocks content = Some blocks ->
  Forall (anchored (split_nl content)) blocks.
Proof.
  intros He. destruct (extract_scan content) as (st & Hscan & He' & _).
  rewrite He in He'. injection He' as ->.
  assert (H : anchored_inv (split_nl content) st).
  { apply (scan_from_start anchored_inv);
      [exact anchored_inv_step| |exact Hscan].
    intros _. split; [constructor|]. intros b [=]. }
  apply H, split_nl_no_nl.
Qed.

End CodeChecksFacts.

Module CodeChecksExtra.
Import CodeBlocks CodeBlocksFacts CodeChecks CodeChecksFacts.

(** X1. The extractor never raises, and it emits one block for every two
    lines that start with three backticks: half their number, rounded
    down. *)
Theorem block_count_half_of_fences (content : str) :
  exists blocks,
    extract_code_blocks content = Some blocks /\
    length blocks = length (fence_lines (split_nl content)) / 2.
Proof.
  destruct (extract_scan content) as (st & _ & He & H).
  exists (code_blocks st). split; [exact He|].
  unfold count_inv in H. rewrite <- H. destruct (in_code_block st).
  - apply (Nat.div_unique _ 2 _ 1); lia.
  - apply (Nat.div_unique _ 2 _ 0); lia.
Qed.

(** X2. Every emitted block starts on a line that opens with three
    backticks and carries the tag of that line; no line of its code starts
    with three backticks; and the blocks come in the order of their first
    lines. *)
Theorem blocks_anchored_in_order (content : str) :
  exists blocks,
    extract_code_blocks content = Some blocks /\
    Forall (anchored (split_nl content)) blocks /\
    increasing 0 (map line_number blocks).
Proof.
  destruct (extract_scan content) as (st & Hscan & He & _).
  exists (code_blocks st). split; [exact He|]. split.
  - exact (extracted_anchored content _ He).
  - assert (H : increasing_inv (split_nl content) st).
    { apply (scan_from_start increasing_inv);
        [exact increasing_inv_step| |exact Hscan].
      split; [exact I|]. split; [constructor|]. intros b [=]. }
    apply H.
Qed.

(** X4. A document has code blocks, for the two tests that ask for some,
    exactly when at least two of its lines start with three backticks. *)
Theorem has_code_blocks_two_fences (content : str) :
  exists r,
    test_has_code_blocks content = Some r /\
    (r = true <-> 2 <= length (fence_lines (split_nl content))).
Proof.
  unfold test_has_code_blocks.
  destruct (extract_scan content) as (st & _ & -> & H).
  eexists. split; [reflexivity|]. rewrite Nat.ltb_lt.
  unfold count_inv in H. rewrite <- H.
  destruct (in_code_block st); lia.
Qed.

(** *** The fence count of [test_markdown_code_blocks_well_formed] *)

Lemma findall_rest_of_line l : forall k rest,
  no_nl l -> k <= length l ->
  findall_fences_from k false (l ++ nl :: rest) =
  findall_fences_from 0 true rest.
Proof.
  induction l as [|c l IH]; intros k rest Hl Hk.
  - cbn in Hk. replace k with 0 by lia. reflexivity.
  - inversion Hl as [|? ? Hc Hl']; subst. simpl in Hc.
    cbn [app findall_fences_from]. destruct k as [|k].
    + cbn [andb]. rewrite Hc. apply IH; [exact Hl'|lia].
    + rewrite Hc. apply IH; [exact Hl'|cbn in Hk; lia].
Qed.

Lemma findall_rest_of_text l : forall k,
  no_nl l -> findall_fences_from k false l = 0.
Proof.
  induction l as [|c l IH]; intros k Hl; [reflexivity|].
  inversion Hl as [|? ? Hc Hl']; subst. simpl in Hc.
  cbn [findall_fences_from]. destruct k; cbn [andb]; rewrite Hc; apply IH, Hl'.
Qed.

(** Whether a line starts with three backticks does not depend on what
    follows the line. *)
Lemma startswith_fence_line l rest :
  no_nl l -> startswith fence (l ++ nl :: rest) = startswith fence l.
Proof.
  intros Hl.
  destruct l as [|a [|b [|c l]]]; cbn [app].
  - reflexivity.
  - change (startswith fence (a :: nl :: rest))
      with (if Ascii.eqb "`" a then false else false).
    change (startswith fence [a]) with (if Ascii.eqb "`" a then false else false).
    reflexivity.
  - change (startswith fence (a :: b :: nl :: rest))
      with (if Ascii.eqb "`" a then if Ascii.eqb "`" b then false else false
            else false).
    change (startswith fence [a; b])
      with (if Ascii.eqb "`" a then if Ascii.eqb "`" b then false else false
            else false).
    reflexivity.
  - change (startswith fence (a :: b :: c :: l ++ nl :: rest))
      with (if Ascii.eqb "`" a then if Ascii.eqb "`" b then
              if Ascii.eqb "`" c then true else false else false else false).
    change (startswith fence (a :: b :: c :: l))
      with (if Ascii.eqb "`" a then if Ascii.eqb "`" b then
              if Ascii.eqb "`" c then true else false else false else false).
    reflexivity.
Qed.

Lemma startswith_fence_length l :
  startswith fence l = true -> 3 <= length l.
Proof.
  destruct l as [|a [|b [|c l]]]; cbn [length]; intros H;
    try lia; exfalso; revert H.
  - discriminate.
  - change (startswith fence [a]) with (if Ascii.eqb "`" a then false else false).
    destruct (Ascii.eqb "`" a); discriminate.
  - change (startswith fence [a; b])
      with (if Ascii.eqb "`" a then if Ascii.eqb "`" b then false else false
            else false).
    destruct (Ascii.eqb "`" a), (Ascii.eqb "`" b); discriminate.
Qed.

Lemma findall_line l rest :
  no_nl l ->
  findall_fences_from 0 true (l ++ nl :: rest) =
  fence_bit l + findall_fences_from 0 true rest.
Proof.
  intros Hl. unfold fence_bit.
  pose proof (startswith_fence_line l rest Hl) as Hsw.
  destruct l as [|c l].
  - cbn [app] in *. cbn [findall_fences_from andb]. rewrite Hsw. reflexivity.
  - cbn [app] in *. cbn [findall_fences_from andb]. rewrite Hsw.
    inversion Hl as [|? ? Hc Hl']; subst. simpl in Hc. rewrite Hc.
    destruct (startswith fence (c :: l)) eqn:E.
    + apply startswith_fence_length in E. cbn [length] in E.
      cbn [Nat.add]. f_equal. apply findall_rest_of_line; [exact Hl'|lia].
    + apply findall_rest_of_line; [exact Hl'|lia].
Qed.

Lemma findall_last l :
  no_nl l -> findall_fences_from 0 true l = fence_bit l.
Proof.
  intros Hl. unfold fence_bit. destruct l as [|c l]; [reflexivity|].
  cbn [findall_fences_from andb].
  inversion Hl as [|? ? Hc Hl']; subst. simpl in Hc. rewrite Hc.
  destruct (startswith fence (c :: l)).
  - rewrite findall_rest_of_text by exact Hl'. reflexivity.
  - apply findall_rest_of_text, Hl'.
Qed.

Lemma fence_lines_cons l ls :
  length (fence_lines (l :: ls)) = fence_bit l + length (fence_lines ls).
Proof.
  unfold fence_lines, fence_bit. cbn [List.filter].
  destruct (startswith fence l); reflexivity.
Qed.

Lemma findall_lines lines :
  Forall no_nl lines ->
  findall_fences_from 0 true (join_nl lines) = length (fence_lines lines).
Proof.
  induction lines as [|l ls IH]; intros Hnl; [reflexivity|].
  inversion Hnl as [|? ? Hl Hls]; subst. rewrite fence_lines_cons.
  destruct ls as [|l' ls].
  - cbn [join_nl]. rewrite findall_last by exact Hl.
    unfold fence_lines. cbn. lia.
  - change (join_nl (l :: l' :: ls)) with (l ++ nl :: join_nl (l' :: ls)).
    rewrite findall_line by exact Hl. rewrite IH by exact Hls. reflexivity.
Qed.

(** X3. The pattern counts the lines that start with three backticks, and the
    test accepts a file exactly when the extractor ends outside a block on
    it, that is when no opened block is dropped. *)
Theorem fence_parity_is_closedness (content : str) :
  findall_fences content = length (fence_lines (split_nl content)) /\
  (fences_even content = true <->
   exists st, scan init 1 (split_nl content) = Some st /\
     in_code_block st = false).
Proof.
  assert (Hcount : findall_fences content
                   = length (fence_lines (split_nl content))).
  { unfold findall_fences. rewrite <- (join_split content) at 1.
    apply findall_lines, split_nl_no_nl. }
  split; [exact Hcount|].
  unfold fences_even. rewrite Hcount, Nat.eqb_eq.
  destruct (extract_scan content) as (st & Hscan & _ & H).
  unfold count_inv in H. rewrite <- H. split.
  - intros Hm. exists st. split; [exact Hscan|].
    destruct (in_code_block st); [|reflexivity].
    exfalso. rewrite Nat.add_comm, Nat.mul_comm, Nat.Div0.mod_add in Hm.
    discriminate Hm.
  - intros (st' & Hscan' & Hout). rewrite Hscan in Hscan'.
    injection Hscan' as <-. rewrite Hout.
    rewrite Nat.add_comm, Nat.mul_comm, Nat.Div0.mod_add. reflexivity.
Qed.

End CodeChecksExtra.

Module CodeChecksLang.
Import CodeBlocks CodeBlocksFacts CodeChecks CodeChecksFacts CodeChecksExtra.

Example count_overlap : count (lit "aa") (lit "aaaaa") = 2.
Proof. reflexivity. Qed.

Lemma word_lower_alnum c :
  is_word c = true -> is_alnum (lower_char c) = negb (is_underscore c).
Proof. char_cases c. Qed.

Lemma lower_underscore c : is_underscore (lower_char c) = is_underscore c.
Proof. char_cases c. Qed.

Lemma take_while_word s : Forall (fun c => is_word c = true) (take_while is_word s).
Proof.
  induction s as [|c s IH]; simpl; [constructor|].
  destruct (is_word c) eqn:E; constructor; assumption.
Qed.

Lemma has_underscore_lower s : has_underscore (lower s) = has_underscore s.
Proof.
  unfold has_underscore, lower. induction s as [|c s IH]; [reflexivity|].
  cbn [map existsb]. rewrite lower_underscore, IH. reflexivity.
Qed.

Lemma forallb_alnum_lower s :
  Forall (fun c => is_word c = true) s ->
  forallb is_alnum (lower s) = negb (has_underscore s).
Proof.
  unfold has_underscore, lower. induction 1 as [|c s Hc _ IH]; [reflexivity|].
  cbn [map forallb existsb]. rewrite (word_lower_alnum c Hc), IH.
  destruct (is_underscore c); reflexivity.
Qed.

Lemma str_eqb_eq a b : str_eqb a b = true <-> a = b.
Proof.
  unfold str_eqb. destruct (List.list_eq_dec _ a b); split; congruence.
Qed.

Lemma valid_no_underscore x :
  str_in x valid_languages = true -> has_underscore x = false.
Proof.
  unfold str_in. rewrite existsb_exists. intros (v & Hv & E).
  apply str_eqb_eq in E. subst x.
  assert (H : forallb (fun v => negb (has_underscore v)) valid_languages = true)
    by reflexivity.
  rewrite forallb_forall in H. specialize (H v Hv).
  destruct (has_underscore v); [discriminate H|reflexivity].
Qed.

(** A tag made of word characters is reported exactly when it holds an
    underscore. *)
Lemma block_invalid_underscore b :
  Forall (fun c => is_word c = true) (language b) ->
  block_invalid b = has_underscore (language b).
Proof.
  intros Hw. unfold block_invalid, isalnum. cbn zeta.
  rewrite (forallb_alnum_lower _ Hw).
  destruct (has_underscore (language b)) eqn:Hu.
  - assert (Hv : str_in (lower (language b)) valid_languages = false).
    { destruct (str_in (lower (language b)) valid_languages) eqn:E;
        [|reflexivity].
      apply valid_no_underscore in E. rewrite has_underscore_lower in E.
      congruence. }
    rewrite Hv. destruct (language b); [discriminate Hu|reflexivity].
  - cbn [negb]. rewrite andb_true_r.
    destruct (truthy (lower (language b)));
      destruct (str_in (lower (language b)) valid_languages); reflexivity.
Qed.

Lemma extracted_tag_word content blocks b :
  extract_code_blocks content = Some blocks -> In b blocks ->
  Forall (fun c => is_word c = true) (language b).
Proof.
  intros He Hb. pose proof (extracted_anchored content blocks He) as Ha.
  rewrite Forall_forall in Ha. apply list_elem_of_In in Hb.
  destruct (Ha b Hb) as (l & _ & _ & _ & -> & _).
  apply take_while_word.
Qed.

Lemma file_invalid_ids_spec name content blocks e :
  extract_code_blocks content = Some blocks ->
  (In e (file_invalid_ids name blocks) <->
   exists b, In b blocks /\ has_underscore (language b) = true /\
     e = {| inv_file := name; inv_language := language b;
            inv_line := line_number b |}).
Proof.
  intros He. unfold file_invalid_ids. rewrite in_map_iff. split.
  - intros (b & <- & Hb). apply filter_In in Hb. destruct Hb as [Hb Hi].
    exists b. split; [exact Hb|]. split; [|reflexivity].
    rewrite <- (block_invalid_underscore b); [exact Hi|].
    exact (extracted_tag_word _ _ _ He Hb).
  - intros (b & Hb & Hu & ->). exists b. split; [reflexivity|].
    apply filter_In. split; [exact Hb|].
    rewrite (block_invalid_underscore b); [exact Hu|].
    exact (extracted_tag_word _ _ _ He Hb).
Qed.

(** X5. The language check never raises, and it reports exactly the blocks
    whose tag holds an underscore: a tag is a run of word characters, and
    among those only the underscore is not alphanumeric. *)
Theorem invalid_language_is_underscore (files : list (str * str)) :
  exists ids,
    invalid_identifiers files = Some ids /\
    forall e, In e ids <->
      exists f blocks b,
        In f files /\ extract_code_blocks (snd f) = Some blocks /\
        In b blocks /\ has_underscore (language b) = true /\
        e = {| inv_file := fst f; inv_language := language b;
               inv_line := line_number b |}.
Proof.
  induction files as [|f files (ids & Hids & IH)].
  - exists []. split; [reflexivity|]. intros e. split; [intros []|].
    intros (f & _ & _ & [] & _).
  - cbn [invalid_identifiers].
    destruct (extract_code_blocks_total (snd f)) as (blocks & He).
    rewrite He, Hids. eexists. split; [reflexivity|].
    intros e. rewrite in_app_iff, IH.
    rewrite (file_invalid_ids_spec (fst f) (snd f) blocks e He). split.
    + intros [(b & Hb & Hu & ->)|(f' & bs & b & Hf & Hbs & Hb & Hu & ->)].
      * exists f, blocks, b. repeat split; try assumption. left. reflexivity.
      * exists f', bs, b. repeat split; try assumption. right. exact Hf.
    + intros (f' & bs & b & [<-|Hf] & Hbs & Hb & Hu & ->).
      * left. rewrite He in Hbs. injection Hbs as <-. exists b. auto.
      * right. exists f', bs, b. auto.
Qed.

(** *** Quotes in shell blocks *)

Lemma count_char q s :
  count [q] s = length (List.filter (Ascii.eqb q) s).
Proof.
  unfold count. induction s as [|c s IH]; [reflexivity|].
  cbn [count_from List.filter length pred]. rewrite startswith_char.
  destruct (Ascii.eqb q c); cbn [length]; rewrite IH; reflexivity.
Qed.

Lemma unescaped_prev q s :
  match s with c :: _ => Ascii.eqb q c = false | [] => True end ->
  unescaped q true s = unescaped q false s.
Proof.
  destruct s as [|c s]; [reflexivity|]. intros H. cbn [unescaped].
  rewrite H. reflexivity.
Qed.

Lemma startswith_pair a b c s :
  startswith [a; b] (c :: s) =
  (Ascii.eqb a c && match s with d :: _ => Ascii.eqb b d | [] => false end)%bool.
Proof.
  cbn [startswith]. destruct (Ascii.eqb a c); [|reflexivity].
  destruct s as [|d s]; [reflexivity|]. cbn [andb].
  destruct (Ascii.eqb b d); reflexivity.
Qed.

Lemma count_split q n : forall s,
  Ascii.eqb backslash q = false ->
  length s <= n ->
  length (List.filter (Ascii.eqb q) s) =
  unescaped q false s + count_from [backslash; q] 0 s.
Proof.
  induction n as [|n IH]; intros s Hq Hn.
  - destruct s; [reflexivity|cbn in Hn; lia].
  - destruct s as [|c s]; [reflexivity|]. cbn [length] in Hn.
    cbn [List.filter unescaped count_from length pred].
    rewrite startswith_pair, andb_true_r.
    destruct (Ascii.eqb backslash c) eqn:Ec.
    + apply Ascii.eqb_eq in Ec. subst c.
      assert (Hqb : Ascii.eqb q backslash = false).
      { rewrite Ascii.eqb_sym. exact Hq. }
      rewrite Hqb. cbn [andb Nat.add].
      destruct s as [|d s].
      * reflexivity.
      * cbn [length] in Hn. destruct (Ascii.eqb q d) eqn:Ed.
        -- cbn [List.filter unescaped count_from length andb negb Nat.add].
           rewrite Ed. cbn [andb length Nat.add].
           apply Ascii.eqb_eq in Ed. subst d. rewrite Hq.
           pose proof (IH s Hq ltac:(lia)) as E. lia.
        -- rewrite unescaped_prev by exact Ed.
           apply IH; [exact Hq|cbn [length]; lia].
    + cbn [andb]. pose proof (IH s Hq ltac:(lia)) as E.
      destruct (Ascii.eqb q c); cbn [length]; lia.
Qed.

(** The balance of a quote character is the number of its occurrences that
    do not follow a backslash; it is never negative. *)
Lemma quote_balance_unescaped q code :
  Ascii.eqb backslash q = false ->
  quote_balance q code = Z.of_nat (unescaped q false code).
Proof.
  intros Hq. unfold quote_balance. rewrite count_char.
  rewrite (count_split q (length code) code Hq (Nat.le_refl _)).
  unfold count. lia.
Qed.

Lemma quotes_balanced_even code :
  quotes_balanced code = true <->
  Nat.even (unescaped single_quote false code) = true /\
  Nat.even (unescaped double_quote false code) = true.
Proof.
  unfold quotes_balanced.
  rewrite !quote_balance_unescaped by reflexivity.
  rewrite andb_true_iff, !Z.eqb_eq.
  assert (H : forall n, (Z.of_nat n mod 2 = 0)%Z <-> Nat.even n = true).
  { intros n. rewrite Nat.even_spec. split.
    - intros Hm. exists (Z.to_nat (Z.of_nat n / 2)).
      pose proof (Z.div_mod (Z.of_nat n) 2 ltac:(lia)). lia.
    - intros [k ->]. rewrite Nat2Z.inj_mul, Z.mul_comm.
      apply Z.mod_mul. lia. }
  rewrite !H. reflexivity.
Qed.

(** X6. The shell-quote check never raises; it passes exactly when, in every
    block tagged [bash], [sh] or [shell] of every file, the single quotes
    that do not follow a backslash are even in number, and so are the
    double quotes. *)
Theorem bash_quotes_unescaped_even (files : list (str * str)) :
  exists r,
    test_bash_examples_valid_syntax files = Some r /\
    (r = true <->
     forall f blocks b,
       In f files -> extract_code_blocks (snd f) = Some blocks ->
       In b blocks -> is_bash b = true ->
       Nat.even (unescaped single_quote false (code b)) = true /\
       Nat.even (unescaped double_quote false (code b)) = true).
Proof.
  induction files as [|f files (r & Hr & IH)].
  - exists true. split; [reflexivity|]. split; [|reflexivity].
    intros _ f blocks b [].
  - cbn [test_bash_examples_valid_syntax].
    destruct (extract_code_blocks_total (snd f)) as (blocks & He).
    rewrite He.
    destruct (forallb (fun b => quotes_balanced (code b))
                (List.filter is_bash blocks)) eqn:Hall.
    + exists r. split; [exact Hr|]. rewrite IH. split.
      * intros H f' bs b [<-|Hf] Hbs Hb Hbash.
        -- rewrite He in Hbs. injection Hbs as <-.
           rewrite forallb_forall in Hall. apply quotes_balanced_even.
           apply Hall. apply filter_In. split; assumption.
        -- exact (H f' bs b Hf Hbs Hb Hbash).
      * intros H f' bs b Hf. apply H. right. exact Hf.
    + exists false. split; [reflexivity|]. split; [discriminate|].
      intros H. exfalso.
      assert (Hall' : forallb (fun b => quotes_balanced (code b))
                        (List.filter is_bash blocks) = true).
      { apply forallb_forall. intros b Hb. apply filter_In in Hb.
        destruct Hb as [Hb Hbash]. apply quotes_balanced_even.
        exact (H f blocks b (or_introl eq_refl) He Hb Hbash). }
      congruence.
Qed.

End CodeChecksLang.

(** ** More properties of [extract_checklists] and of its callers *)

Module ChecklistChecksFacts.
Import Re Checklists ChecklistsFacts ChecklistChecks.

(** *** Trimming twice is trimming once *)

Lemma drop_while_fixed p (s : str) :
  match s with c :: _ => p c = false | [] => True end -> drop_while p s = s.
Proof. destruct s as [|c s]; [reflexivity|]. intros H. simpl. rewrite H. reflexivity. Qed.

Lemma drop_while_starts p (s : str) :
  match drop_while p s with c :: _ => p c = false | [] => True end.
Proof.
  induction s as [|c s IH]; [exact I|]. simpl.
  destruct (p c) eqn:E; [exact IH|exact E].
Qed.

Lemma strip_idem s : strip (strip s) = strip s.
Proof.
  unfold strip. set (u := lstrip s).
  assert (Hu : match u with c :: _ => is_space c = false | [] => True end)
    by apply drop_while_starts.
  unfold rstrip at 2.
  pose proof (take_drop_while is_space (rev u)) as Hsplit.
  pose proof (drop_while_starts is_space (rev u)) as Ht'.
  set (t' := drop_while is_space (rev u)) in *.
  set (w' := take_while is_space (rev u)) in *.
  assert (Hpre : u = rev t' ++ rev w').
  { rewrite <- rev_app_distr, Hsplit, rev_involutive. reflexivity. }
  assert (Hl : lstrip (rev t') = rev t').
  { unfold lstrip. apply drop_while_fixed.
    destruct (rev t') as [|c r] eqn:E; [exact I|].
    rewrite Hpre in Hu. exact Hu. }
  rewrite Hl. unfold rstrip. rewrite rev_involutive.
  rewrite (drop_while_fixed is_space t' Ht'). reflexivity.
Qed.

(** *** The items are those of the checklist lines *)

Lemma flat_items_flush st :
  flat_map items (flush st) = all_items st.
Proof.
  unfold flush, all_items, open_group.
  destruct (current_checklist st) as [g|]; cbn [flat_map].
  - destruct (items g) eqn:E; cbn [truthy].
    + rewrite !app_nil_r. reflexivity.
    + rewrite flat_map_app. cbn [flat_map]. rewrite E. reflexivity.
  - rewrite app_nil_r. reflexivity.
Qed.

Lemma heading_not_item l g :
  section_match l = Some g -> checklist_match l = None.
Proof.
  intros H. destruct (checklist_match l) as [t|] eqn:E; [|reflexivity].
  rewrite (item_not_heading _ _ E) in H. discriminate H.
Qed.

Lemma step_all_items st i l :
  all_items (step st i l) = all_items st ++ item_list l.
Proof.
  unfold step, item_list, item_of.
  destruct (section_match l) as [g|] eqn:Hs.
  - rewrite (heading_not_item _ _ Hs). cbn [option_map].
    unfold all_items at 1, open_group. cbn [checklists current_checklist flat_map].
    rewrite !app_nil_r. apply flat_items_flush.
  - destruct (checklist_match l) as [t|] eqn:Hc; cbn [option_map].
    + unfold all_items, open_group. cbn [checklists current_checklist flat_map].
      destruct (current_checklist st) as [g|]; cbn [flat_map items];
        rewrite ?app_nil_r, <- ?app_assoc; reflexivity.
    + rewrite app_nil_r. destruct (current_checklist st) as [g|] eqn:E;
        [|reflexivity].
      destruct (truthy (strip l) && negb (startswith (lit "-") l))%bool;
        [|reflexivity].
      unfold all_items at 1, open_group.
      cbn [checklists current_checklist flat_map]. rewrite app_nil_r.
      apply flat_items_flush.
Qed.

Lemma scan_all_items ls : forall st i,
  all_items (scan st i ls) = all_items st ++ item_texts ls.
Proof.
  induction ls as [|l ls IH]; intros st i; cbn [scan item_texts flat_map].
  - rewrite app_nil_r. reflexivity.
  - rewrite IH, step_all_items, <- app_assoc. reflexivity.
Qed.

Lemma extract_items content :
  flat_map items (extract_checklists content) = item_texts (split_nl content).
Proof.
  unfold extract_checklists, extract_lines.
  rewrite flat_items_flush, scan_all_items. reflexivity.
Qed.

Lemma total_items_flat gs : total_items gs = length (flat_map items gs).
Proof.
  unfold total_items.
  assert (H : forall acc, fold_left (fun a c => a + length (items c)) gs acc
                          = acc + length (flat_map items gs)).
  { induction gs as [|g gs IH]; intros acc; cbn [fold_left flat_map].
    - cbn. lia.
    - rewrite IH, length_app. lia. }
  rewrite H. reflexivity.
Qed.

(** *** Trimmed texts *)

Lemma trimmed_flush st : trimmed_inv st -> Forall trimmed (flush st).
Proof.
  intros (_ & Hcl & Hopen). unfold flush. unfold open_group in Hopen.
  destruct (current_checklist st) as [g|]; [|exact Hcl].
  destruct (truthy (items g)); [|exact Hcl].
  apply Forall_app. split; assumption.
Qed.

Lemma trimmed_step st i l : trimmed_inv st -> trimmed_inv (step st i l).
Proof.
  intros H. pose proof H as (Hsec & Hcl & Hopen). unfold step.
  destruct (section_match l) as [g|].
  - split; [apply strip_idem|]. split; [apply trimmed_flush, H|constructor].
  - destruct (checklist_match l) as [t|].
    + split; [exact Hsec|]. split; [exact Hcl|].
      unfold open_group in *. cbn [current_checklist].
      constructor; [|constructor].
      destruct (current_checklist st) as [g|]; cbn [section items].
      * inversion Hopen as [|? ? [Hg1 Hg2] _]; subst.
        split; [exact Hg1|]. apply Forall_app. split; [exact Hg2|].
        constructor; [apply strip_idem|constructor].
      * split; [exact Hsec|]. constructor; [apply strip_idem|constructor].
    + destruct (current_checklist st) as [g|] eqn:E; [|exact H].
      destruct (truthy (strip l) && negb (startswith (lit "-") l))%bool;
        [|exact H].
      split; [exact Hsec|]. split; [apply trimmed_flush, H|constructor].
Qed.

Lemma trimmed_scan ls : forall st i, trimmed_inv st -> trimmed_inv (scan st i ls).
Proof.
  induction ls as [|l ls IH]; intros st i H; [exact H|].
  cbn [scan]. apply IH, trimmed_step, H.
Qed.


(** *** The heading of a group *)

Lemma section_after_snoc pre l :
  section_after (pre ++ [l]) =
  match section_match l with
  | Some g => strip g
  | None => section_after pre
  end.
Proof. unfold section_after. rewrite fold_left_app. reflexivity. Qed.

Lemma headed_snoc pre l g : headed pre g -> headed (pre ++ [l]) g.
Proof.
  intros (x & t & Hx & H1 & Hm & Hhd & Hsec).
  assert (Hlt : line_number g - 1 < length pre).
  { apply nth_error_Some. rewrite Hx. discriminate. }
  exists x, t. split; [rewrite nth_error_app1; assumption|].
  split; [exact H1|]. split; [exact Hm|]. split; [exact Hhd|].
  rewrite firstn_app.
  replace (line_number g - 1 - length pre) with 0 by lia.
  cbn [firstn]. rewrite app_nil_r. exact Hsec.
Qed.

Lemma headed_flush pre l st :
  headed_inv pre st -> Forall (headed (pre ++ [l])) (flush st).
Proof.
  intros (_ & Hcl & Hopen).
  assert (Hall : Forall (headed (pre ++ [l])) (checklists st ++ open_group st)).
  { apply Forall_app. split; (eapply Forall_impl; [eassumption|]);
      intros g; apply headed_snoc. }
  unfold flush. unfold open_group in Hall.
  destruct (current_checklist st) as [g|].
  - destruct (truthy (items g)); [exact Hall|].
    apply Forall_app in Hall. apply Hall.
  - rewrite app_nil_r in Hall. exact Hall.
Qed.

Lemma headed_step pre st l :
  headed_inv pre st -> headed_inv (pre ++ [l]) (step st (S (length pre)) l).
Proof.
  intros H. pose proof H as (Hsec & Hcl & Hopen).
  assert (Hcl' : Forall (headed (pre ++ [l])) (checklists st)).
  { eapply Forall_impl; [exact Hcl|]. intros g. apply headed_snoc. }
  assert (Hopen' : Forall (headed (pre ++ [l])) (open_group st)).
  { eapply Forall_impl; [exact Hopen|]. intros g. apply headed_snoc. }
  unfold step, headed_inv. rewrite section_after_snoc.
  destruct (section_match l) as [g|] eqn:Hs.
  - cbn [current_section checklists]. split; [reflexivity|].
    split; [apply headed_flush, H|constructor].
  - destruct (checklist_match l) as [t|] eqn:Hc.
    + cbn [current_section checklists]. split; [exact Hsec|].
      split; [exact Hcl'|].
      unfold open_group in *. cbn [current_checklist].
      constructor; [|constructor].
      destruct (current_checklist st) as [g|].
      * inversion Hopen' as [|? ? (x & t0 & Hx & H1 & Hm & Hhd & Hsg) _]; subst.
        exists x, t0. cbn [line_number items section].
        split; [exact Hx|]. split; [exact H1|]. split; [exact Hm|].
        split; [|exact Hsg].
        destruct (items g); [discriminate Hhd|exact Hhd].
      * exists l, t. cbn [line_number items section hd_error].
        replace (S (length pre) - 1) with (length pre) by lia.
        split; [rewrite nth_error_app2, Nat.sub_diag by lia; reflexivity|].
        split; [lia|]. split; [exact Hc|]. split; [reflexivity|].
        rewrite firstn_app, Nat.sub_diag, firstn_all. cbn [firstn].
        rewrite app_nil_r. exact Hsec.
    + destruct (current_checklist st) as [g|] eqn:E.
      * destruct (truthy (strip l) && negb (startswith (lit "-") l))%bool.
        -- cbn [current_section checklists]. split; [exact Hsec|].
           split; [apply headed_flush, H|constructor].
        -- split; [exact Hsec|]. split; assumption.
      * split; [exact Hsec|]. split; assumption.
Qed.

Lemma headed_scan ls : forall pre st,
  headed_inv pre st -> headed_inv (pre ++ ls) (scan st (S (length pre)) ls).
Proof.
  induction ls as [|l ls IH]; intros pre st H.
  - rewrite app_nil_r. exact H.
  - cbn [scan].
    replace (pre ++ l :: ls) with ((pre ++ [l]) ++ ls)
      by (rewrite <- app_assoc; reflexivity).
    replace (S (S (length pre))) with (S (length (pre ++ [l])))
      by (rewrite length_app; cbn; lia).
    apply IH, headed_step, H.
Qed.

End ChecklistChecksFacts.

Module ChecklistChecksExtra.
Import Re Checklists ChecklistsFacts ChecklistChecks ChecklistChecksFacts.

(** X7. Nothing is lost and nothing is invented: the items of the emitted
    groups, taken in order, are the trimmed texts of the checklist lines of
    the document, in order. *)
Theorem checklist_items_conserved (content : str) :
  flat_map items (extract_checklists content) =
  item_texts (split_nl content).
Proof.
  unfold extract_checklists, extract_lines.
  rewrite flat_items_flush, scan_all_items.
  unfold all_items, open_group. reflexivity.
Qed.

(** X8. Every section name and every item text of an emitted group is free of
    leading and trailing whitespace. *)
Theorem checklist_texts_trimmed (content : str) :
  Forall trimmed (extract_checklists content).
Proof.
  unfold extract_checklists, extract_lines.
  apply trimmed_flush, trimmed_scan.
  split; [reflexivity|]. split; constructor.
Qed.

(** X9. The nearest heading wins: every emitted group starts on the line of its
    first item and is attributed to the last heading above that line, or to
    ["Unknown"] when no heading precedes it. *)
Theorem checklist_group_headed (content : str) :
  Forall (headed (split_nl content)) (extract_checklists content).
Proof.
  unfold extract_checklists, extract_lines.
  assert (H : headed_inv (split_nl content) (scan init 1 (split_nl content))).
  { apply (headed_scan (split_nl content) [] init).
    split; [reflexivity|]. split; constructor. }
  destruct H as (_ & Hcl & Hopen).
  unfold flush. unfold open_group in Hopen.
  destruct (current_checklist _) as [g|]; [|exact Hcl].
  destruct (truthy (items g)); [|exact Hcl].
  apply Forall_app. split; assumption.
Qed.

(** X10. The counting checks read the checklist lines of the document: the
    total-item check passes exactly when there are at least 30 of them, the
    has-checklists check exactly when there is one, and the check for empty
    groups passes on every document. *)
Theorem checklist_count_checks (content : str) :
  (test_total_checklist_item_count content = true <->
   30 <= length (item_texts (split_nl content)))
  /\ (test_main_skill_has_checklists content = true <->
      item_texts (split_nl content) <> [])
  /\ test_checklists_have_items content = true.
Proof.
  split; [|split].
  - unfold test_total_checklist_item_count.
    rewrite total_items_flat, extract_items. apply Nat.leb_le.
  - unfold test_main_skill_has_checklists.
    rewrite <- extract_items, Nat.ltb_lt.
    pose proof (extract_checklists_nonempty content) as Hne.
    destruct (extract_checklists content) as [|g gs].
    + cbn. split; [lia|congruence].
    + inversion Hne as [|? ? Hg _]; subst. cbn [length flat_map].
      split; [|lia]. intros _ E. apply app_eq_nil in E. destruct E as [E _].
      exact (Hg E).
  - unfold test_checklists_have_items.
    pose proof (extract_checklists_nonempty content) as Hne.
    induction Hne as [|g gs Hg _ IH]; [reflexivity|].
    cbn [List.filter]. destruct (items g); [congruence|exact IH].
Qed.

Lemma problematic_length gs :
  length (problematic_items gs) =
  length (List.filter too_short (flat_map items gs)).
Proof.
  unfold problematic_items. induction gs as [|g gs IH]; [reflexivity|].
  cbn [flat_map]. rewrite List.filter_app, !length_app, length_map, IH.
  reflexivity.
Qed.

(** X11. The item-substance check reads the checklist lines of the document: it
    passes exactly when fewer than three of them have a trimmed text of
    fewer than ten characters. *)
Theorem short_items_are_short_lines (content : str) :
  test_checklist_items_are_questions_or_statements content = true <->
  length (List.filter too_short (item_texts (split_nl content))) < 3.
Proof.
  unfold test_checklist_items_are_questions_or_statements.
  rewrite problematic_length, extract_items. apply Nat.ltb_lt.
Qed.

End ChecklistChecksExtra.

(** ** Properties of the heading-hierarchy check *)

Module HierarchyFacts.
Import Re Hierarchy.

Example levels_with_blank_heading :
  header_levels (lit "# T" ++ nl :: lit "##" ++ nl :: lit "#### deep"
                 ++ nl :: lit "####### seven" ++ nl :: lit "#x") = [1; 2; 4].
Proof. reflexivity. Qed.

Lemma ws_star_tag {A} (x : A) s r rest :
  ws_star (fun rest => Some (x, rest)) s = Some (r, rest) ->
  r = x /\ length rest <= length s.
Proof.
  revert r rest. induction s as [|c s IH]; intros r rest; cbn [ws_star].
  - intros [= <- <-]. split; [reflexivity|lia].
  - destruct (is_space c).
    + destruct (ws_star (fun rest => Some (x, rest)) s) as [[r' rest']|] eqn:E.
      * intros [= <- <-]. destruct (IH _ _ eq_refl) as [-> Hl].
        split; [reflexivity|cbn [length]; lia].
      * intros [= <- <-]. split; [reflexivity|lia].
    + intros [= <- <-]. split; [reflexivity|lia].
Qed.

Lemma ws_plus_tag {A} (x : A) s r rest :
  ws_plus (fun rest => Some (x, rest)) s = Some (r, rest) ->
  r = x /\ length rest < length s.
Proof.
  destruct s as [|c s]; cbn [ws_plus]; [discriminate|].
  destruct (is_space c); [|discriminate].
  intros H. apply ws_star_tag in H. destruct H as [-> Hl].
  split; [reflexivity|cbn [length]; lia].
Qed.

Lemma hashes_upto_span n : forall s r rest,
  hashes_upto n (fun r => ws_plus (fun rest => Some (r, rest)) r) s
    = Some (r, rest) ->
  length r <= length s /\ length s <= length r + n /\ length rest < length r.
Proof.
  induction n as [|n IH]; intros s r rest; cbn [hashes_upto].
  - intros H. apply ws_plus_tag in H. destruct H as [-> Hl]. lia.
  - assert (Hk : ws_plus (fun rest => Some (s, rest)) s = Some (r, rest) ->
                 length r <= length s /\ length s <= length r + S n /\
                 length rest < length r).
    { intros H. apply ws_plus_tag in H. destruct H as [-> Hl]. lia. }
    destruct s as [|c s']; [exact Hk|].
    destruct (is_hash c); [|exact Hk].
    destruct (hashes_upto n _ s') as [[r' rest']|] eqn:E; [|exact Hk].
    intros [= <- <-]. apply IH in E. cbn [length]. lia.
Qed.

Lemma header_match_level s level n :
  header_match_at s = Some (level, n) -> 1 <= level <= 6.
Proof.
  unfold header_match_at. destruct s as [|c s']; [discriminate|].
  destruct (is_hash c); [|discriminate].
  destruct (hashes_upto 5 _ s') as [[r rest]|] eqn:E; [|discriminate].
  intros [= <- <-]. apply hashes_upto_span in E. cbn [length]. lia.
Qed.

Lemma finditer_levels s : forall skip bol,
  Forall (fun level => 1 <= level <= 6) (finditer_from skip bol s).
Proof.
  induction s as [|c s IH]; intros skip bol; cbn [finditer_from];
    [constructor|].
  destruct skip; [|apply IH]. destruct bol; [|apply IH].
  destruct (header_match_at (c :: s)) as [[level n]|] eqn:E; [|apply IH].
  constructor; [exact (header_match_level _ _ _ E)|apply IH].
Qed.

Lemma jumps_from name levels : forall prev,
  1 <= prev -> Forall (fun level => 1 <= level <= 6) levels ->
  jumps name prev levels = [] <-> gentle_from prev levels.
Proof.
  induction levels as [|b rest IH]; intros prev Hp Hall.
  - cbn. tauto.
  - inversion Hall as [|? ? Hb Hrest]; subst. cbn [jumps gentle_from].
    destruct (Nat.eqb_spec prev 0) as [E|_]; [lia|].
    destruct (Nat.ltb_spec (prev + 2) b) as [Hlt|Hle]; cbn [app].
    + split; [discriminate|]. intros [H _]. lia.
    + rewrite (IH b) by (lia || exact Hrest).
      split; [intros H; split; [lia|exact H]|tauto].
Qed.

Lemma gentle_cons a rest : gentle (a :: rest) <-> gentle_from a rest.
Proof.
  revert a. induction rest as [|b rest IH]; intros a; [cbn; tauto|].
  cbn [gentle gentle_from]. rewrite <- IH. reflexivity.
Qed.

Lemma jumps_gentle name levels :
  Forall (fun level => 1 <= level <= 6) levels ->
  jumps name 0 levels = [] <-> gentle levels.
Proof.
  intros Hall. destruct levels as [|a rest]; [cbn; tauto|].
  inversion Hall as [|? ? Ha Hrest]; subst.
  cbn [jumps Nat.eqb]. rewrite gentle_cons.
  apply jumps_from; [lia|exact Hrest].
Qed.

(** X12. The hierarchy check reads heading levels between 1 and 6, and it passes
    exactly when, in every file, each heading is at most two levels deeper
    than the heading before it; any step towards the top is accepted. *)
Theorem heading_hierarchy_two_levels (files : list (str * str)) :
  (forall f, In f files ->
     Forall (fun level => 1 <= level <= 6) (header_levels (snd f)))
  /\ (test_heading_hierarchy files = true <->
      forall f, In f files -> gentle (header_levels (snd f))).
Proof.
  split; [intros f _; apply finditer_levels|].
  unfold test_heading_hierarchy, hierarchy_issues.
  rewrite Nat.eqb_eq, length_zero_iff_nil, flat_map_nil.
  split; intros H f Hf.
  - apply (jumps_gentle (fst f)); [apply finditer_levels|]. exact (H f Hf).
  - apply (jumps_gentle (fst f)); [apply finditer_levels|]. exact (H f Hf).
Qed.

Example hierarchy_h1_h2_h4 :
  test_heading_hierarchy
    [ (lit "a.md", lit "# A" ++ nl :: lit "## B" ++ nl :: lit "#### C") ]
  = true.
Proof. reflexivity. Qed.

Example hierarchy_h1_h2_h5 :
  hierarchy_issues
    [ (lit "a.md", lit "# A" ++ nl :: lit "## B" ++ nl :: lit "##### C") ]
  = [ {| jump_file := lit "a.md"; jump_from := 2; jump_to := 5 |} ].
Proof. reflexivity. Qed.

End HierarchyFacts.

(** ** Properties of the table check *)

Module TablesFacts.
Import Tables.

Lemma space_not_pipe c : is_space c = true -> is_pipe c = false.
Proof. char_cases c. Qed.

Lemma filter_pipe_drop_spaces s :
  List.filter is_pipe (drop_while is_space s) = List.filter is_pipe s.
Proof.
  induction s as [|c s IH]; [reflexivity|]. cbn [drop_while].
  destruct (is_space c) eqn:E; [|reflexivity].
  cbn [List.filter]. rewrite (space_not_pipe c E). exact IH.
Qed.

Lemma filter_pipe_strip s :
  List.filter is_pipe (strip s) = List.filter is_pipe s.
Proof.
  unfold strip, rstrip, lstrip.
  rewrite List.filter_rev, filter_pipe_drop_spaces, <- List.filter_rev.
  rewrite rev_involutive. apply filter_pipe_drop_spaces.
Qed.

Lemma has_pipe_filter s :
  has_pipe s = match List.filter is_pipe s with [] => false | _ => true end.
Proof.
  unfold has_pipe. induction s as [|c s IH]; [reflexivity|].
  cbn [existsb List.filter]. destruct (is_pipe c); [reflexivity|exact IH].
Qed.

(** Trimming a line changes nothing about its pipes. *)
Lemma pipes_strip s :
  has_pipe (strip s) = has_pipe s /\ count_pipe (strip s) = count_pipe s.
Proof.
  unfold count_pipe. rewrite !has_pipe_filter, filter_pipe_strip.
  split; reflexivity.
Qed.

Lemma step_unpiped st i l :
  unpiped l ->
  step st i l =
  if in_table st then
    {| table_issues := table_issues st; in_table := false;
       table_start := table_start st; column_count := column_count st |}
  else st.
Proof.
  intros H. unfold step. cbn zeta.
  destruct (pipes_strip l) as [-> _]. unfold unpiped in H. rewrite H.
  reflexivity.
Qed.

Lemma step_piped_outside st i l :
  piped l -> in_table st = false ->
  step st i l =
  {| table_issues := table_issues st; in_table := true;
     table_start := i; column_count := count_pipe l |}.
Proof.
  intros H Hout. unfold step. cbn zeta.
  destruct (pipes_strip l) as [-> ->]. unfold piped in H.
  rewrite H, Hout. reflexivity.
Qed.

Lemma step_piped_inside iss ts cols i l :
  piped l ->
  step {| table_issues := iss; in_table := true; table_start := ts;
          column_count := cols |} i l =
  {| table_issues := iss ++ row_issues i cols [l]; in_table := true;
     table_start := ts; column_count := cols |}.
Proof.
  intros H. unfold step. cbn zeta.
  destruct (pipes_strip l) as [-> ->]. unfold piped in H.
  rewrite H. cbn [in_table negb andb table_issues column_count table_start].
  cbn [row_issues]. rewrite app_nil_r.
  destruct (Nat.eqb (count_pipe l) cols); cbn [negb].
  - rewrite app_nil_r. reflexivity.
  - reflexivity.
Qed.

Lemma table_scan_app st i l1 l2 :
  scan st i (l1 ++ l2) = scan (scan st i l1) (i + length l1) l2.
Proof.
  revert st i. induction l1 as [|l l1 IH]; intros st i; cbn [app scan length].
  - rewrite Nat.add_0_r. reflexivity.
  - rewrite IH. replace (S i + length l1) with (i + S (length l1)) by lia.
    reflexivity.
Qed.

Lemma scan_unpiped_outside ls : forall st i,
  Forall unpiped ls -> in_table st = false -> scan st i ls = st.
Proof.
  induction ls as [|l ls IH]; intros st i Hall Hout; [reflexivity|].
  inversion Hall; subst. cbn [scan].
  rewrite step_unpiped by assumption. rewrite Hout. apply IH; assumption.
Qed.

Lemma scan_rows_inside rs : forall iss ts cols i,
  Forall piped rs ->
  scan {| table_issues := iss; in_table := true; table_start := ts;
          column_count := cols |} i rs =
  {| table_issues := iss ++ row_issues i cols rs; in_table := true;
     table_start := ts; column_count := cols |}.
Proof.
  induction rs as [|r rs IH]; intros iss ts cols i Hall.
  - cbn. rewrite app_nil_r. reflexivity.
  - inversion Hall; subst. cbn [scan].
    rewrite step_piped_inside by assumption. rewrite IH by assumption.
    cbn [row_issues]. rewrite app_nil_r, <- app_assoc. reflexivity.
Qed.

(** A run of rows read from outside a table. *)
Lemma scan_run rs st i :
  Forall piped rs -> rs <> [] -> in_table st = false ->
  exists ts cols,
    scan st i rs =
    {| table_issues := table_issues st ++ run_issues i rs; in_table := true;
       table_start := ts; column_count := cols |}.
Proof.
  intros Hall Hne Hout. destruct rs as [|h rs]; [congruence|].
  inversion Hall; subst. cbn [scan].
  rewrite step_piped_outside by assumption.
  rewrite scan_rows_inside by assumption.
  eexists _, _. reflexivity.
Qed.

Lemma scan_gap ls iss ts cols i :
  Forall unpiped ls -> ls <> [] ->
  scan {| table_issues := iss; in_table := true; table_start := ts;
          column_count := cols |} i ls =
  {| table_issues := iss; in_table := false; table_start := ts;
     column_count := cols |}.
Proof.
  intros Hall Hne. destruct ls as [|l ls]; [congruence|].
  inversion Hall; subst. cbn [scan]. rewrite step_unpiped by assumption.
  cbn [in_table table_issues table_start column_count].
  apply scan_unpiped_outside; [assumption|reflexivity].
Qed.

Lemma scan_table t st i :
  table_wf t -> in_table st = false ->
  exists s0 cols,
    scan st i (table_lines t) =
    {| table_issues := table_issues st ++ run_issues i (rows t);
       in_table := false; table_start := s0; column_count := cols |}.
Proof.
  intros (Hne & Hrows & Hgne & Hgap) Hout. unfold table_lines.
  rewrite table_scan_app.
  destruct (scan_run (rows t) st i Hrows Hne Hout) as (s0 & cols & ->).
  rewrite scan_gap by assumption. eexists _, _. reflexivity.
Qed.

Lemma scan_tables ts : forall st i,
  Forall table_wf ts -> in_table st = false ->
  exists st',
    scan st i (concat (map table_lines ts)) = st' /\
    table_issues st' = table_issues st ++ tables_issues i ts /\
    in_table st' = false.
Proof.
  induction ts as [|t ts IH]; intros st i Hall Hout.
  - exists st. cbn. rewrite app_nil_r. auto.
  - inversion Hall as [|? ? Hwf Hrest]; subst.
    cbn [map concat]. rewrite table_scan_app.
    destruct (scan_table t st i Hwf Hout) as (s0 & cols & ->).
    destruct (IH {| table_issues := table_issues st ++ run_issues i (rows t);
                    in_table := false; table_start := s0;
                    column_count := cols |}
                 (i + length (table_lines t)) Hrest eq_refl)
      as (st' & <- & Hiss & Hout').
    eexists. split; [reflexivity|]. split; [|exact Hout'].
    rewrite Hiss. cbn [table_issues tables_issues].
    rewrite <- app_assoc. reflexivity.
Qed.

Lemma scan_last_rows rs st i :
  Forall piped rs -> in_table st = false ->
  table_issues (scan st i rs) = table_issues st ++ run_issues i rs.
Proof.
  intros Hall Hout. destruct rs as [|h rs].
  - cbn. rewrite app_nil_r. reflexivity.
  - destruct (scan_run (h :: rs) st i Hall ltac:(discriminate) Hout)
      as (ts & cols & ->). reflexivity.
Qed.

Lemma find_table_issues_join lines :
  Forall no_nl lines ->
  find_table_issues (join_nl lines) = table_issues (scan init 1 lines).
Proof.
  intros Hnl. unfold find_table_issues. destruct lines as [|l ls].
  - reflexivity.
  - rewrite split_join; [reflexivity|discriminate|exact Hnl].
Qed.

(** X13. Column consistency: in a document made of tables (runs of lines that
    hold a pipe, each ended by lines without one), the issues are, table by
    table, the rows after the first whose number of pipes differs from that
    of the table's first row, each with its line number. *)
Theorem table_issues_per_table
    (before : list str) (ts : list Table) (last_rows : list str) :
  Forall unpiped before ->
  Forall table_wf ts ->
  Forall piped last_rows ->
  Forall no_nl (doc_lines before ts last_rows) ->
  find_table_issues (join_nl (doc_lines before ts last_rows)) =
    tables_issues (1 + length before) ts
    ++ run_issues (1 + length before + length (concat (map table_lines ts)))
                  last_rows.
Proof.
  intros Hb Hts Hlast Hnl. rewrite find_table_issues_join by exact Hnl.
  unfold doc_lines. rewrite !table_scan_app.
  rewrite (scan_unpiped_outside before init 1 Hb eq_refl).
  destruct (scan_tables ts init (1 + length before) Hts eq_refl)
    as (st' & -> & Hiss & Hout).
  rewrite (scan_last_rows last_rows st' _ Hlast Hout), Hiss.
  reflexivity.
Qed.

Lemma table_issues_per_table_witness :
  find_table_issues (join_nl (doc_lines [lit "# T"] ragged [lit "| x |"])) =
    tables_issues (1 + length [lit "# T"]) ragged
    ++ run_issues (1 + length [lit "# T"]
                   + length (concat (map table_lines ragged)))
                  [lit "| x |"].
Proof.
  apply (table_issues_per_table [lit "# T"] ragged [lit "| x |"]).
  - repeat constructor.
  - repeat constructor; discriminate.
  - repeat constructor.
  - repeat constructor.
Defined.

Example ragged_issue :
  find_table_issues (join_nl (doc_lines [lit "# T"] ragged [])) =
  [ {| issue_line := 3; count_from := 3; count_to := 2 |} ].
Proof. reflexivity. Qed.

End TablesFacts.

(** ** Properties of the keyword checks *)

Module CoverageFacts.
Import Coverage.

Lemma contains_cons (sub : str) c (s : str) :
  contains sub s = true -> contains sub (c :: s) = true.
Proof. intros H. cbn [contains]. rewrite H. apply orb_true_r. Qed.

Lemma contains_startswith (sub s : str) :
  startswith sub s = true -> contains sub s = true.
Proof. intros H. destruct s; cbn [contains]; rewrite H; reflexivity. Qed.

Lemma contains_prefix (sub post : str) : contains sub (sub ++ post) = true.
Proof. apply contains_startswith, startswith_app. Qed.

Lemma startswith_longer (sub s post : str) :
  startswith sub s = true -> startswith sub (s ++ post) = true.
Proof.
  intros H. apply startswith_spec in H. destruct H as [r ->].
  rewrite <- app_assoc. apply startswith_app.
Qed.

Lemma contains_app_r (sub s post : str) :
  contains sub s = true -> contains sub (s ++ post) = true.
Proof.
  induction s as [|c s IH]; cbn [contains app].
  - rewrite orb_false_r. intros H.
    destruct sub; [|discriminate H]. destruct post; reflexivity.
  - intros H. apply orb_true_iff in H. apply orb_true_iff.
    destruct H as [H|H].
    + left. exact (startswith_longer sub (c :: s) post H).
    + right. apply IH, H.
Qed.

Lemma contains_app_l (sub pre s : str) :
  contains sub s = true -> contains sub (pre ++ s) = true.
Proof.
  intros H. induction pre as [|c pre IH]; [exact H|].
  cbn [app]. apply contains_cons, IH.
Qed.

Lemma contains_embedded (sub before s after : str) :
  contains sub s = true -> contains sub (before ++ s ++ after) = true.
Proof. intros H. apply contains_app_l, contains_app_r, H. Qed.

Lemma contains_mid (sub x y : str) : contains sub (x ++ sub ++ y) = true.
Proof. apply contains_app_l, contains_prefix. Qed.

Lemma lower_app (a b : str) : lower (a ++ b) = lower a ++ lower b.
Proof. apply map_app. Qed.

Lemma startswith_lower (sub s : str) :
  startswith sub s = true -> startswith (lower sub) (lower s) = true.
Proof.
  intros H. apply startswith_spec in H. destruct H as [r ->].
  rewrite lower_app. apply startswith_app.
Qed.

(** Lower-casing both sides keeps an occurrence. *)
Lemma contains_lower (sub s : str) :
  contains sub s = true -> contains (lower sub) (lower s) = true.
Proof.
  induction s as [|c s IH]; cbn [contains lower map].
  - rewrite !orb_false_r. apply (startswith_lower sub []).
  - intros H. apply orb_true_iff in H. apply orb_true_iff.
    destruct H as [H|H].
    + left. exact (startswith_lower sub (c :: s) H).
    + right. apply IH, H.
Qed.

Lemma filter_length_le {A} (f g : A -> bool) l :
  (forall x, f x = true -> g x = true) ->
  length (List.filter f l) <= length (List.filter g l).
Proof.
  intros H. induction l as [|x l IH]; [reflexivity|]. cbn [List.filter].
  destruct (f x) eqn:E.
  - rewrite (H x E). cbn [length]. lia.
  - destruct (g x); cbn [length]; lia.
Qed.

Lemma found_embedded keywords (before s after : str) :
  length (found keywords s) <= length (found keywords (before ++ s ++ after)).
Proof.
  unfold found. apply filter_length_le. intros k. apply contains_embedded.
Qed.

Lemma threshold_monotone n keywords (pre_map : str -> str) :
  (forall a b, pre_map (a ++ b) = pre_map a ++ pre_map b) ->
  monotone (fun content => Nat.leb n (length (found keywords (pre_map content)))).
Proof.
  intros Happ before content after H. apply Nat.leb_le in H. apply Nat.leb_le.
  rewrite !Happ.
  pose proof (found_embedded keywords (pre_map before) (pre_map content)
                (pre_map after)). lia.
Qed.

End CoverageFacts.

Module CoverageExtra.
Import Coverage CoverageFacts.

Lemma lower_monotone n keywords :
  monotone (fun content => Nat.leb n (length (found keywords (lower content)))).
Proof. apply threshold_monotone. exact lower_app. Qed.

Lemma plain_monotone n keywords :
  monotone (fun content => Nat.leb n (length (found keywords content))).
Proof. apply (threshold_monotone n keywords (fun s => s)). reflexivity. Qed.

Lemma contains_lower_embedded (k before s after : str) :
  contains k (lower s) = true ->
  contains k (lower (before ++ s ++ after)) = true.
Proof. intros H. rewrite !lower_app. apply contains_embedded, H. Qed.

(** X15. Adding text never breaks a keyword check: each of them still passes
    when the document is extended at either end. *)
Theorem keyword_checks_monotone :
  monotone test_edge_case_checklist_comprehensive /\
  monotone test_security_checklist_comprehensive /\
  monotone test_code_quality_checklist_complete /\
  monotone test_covers_common_task_types /\
  monotone test_covers_error_categories /\
  monotone test_pre_and_post_checklists_exist /\
  monotone test_master_checklist_section_exists /\
  monotone test_condensed_has_core_phases /\
  monotone test_condensed_has_chain_of_thought /\
  monotone test_condensed_has_code_generation /\
  monotone test_condensed_has_checklists /\
  monotone test_condensed_has_self_correction.
Proof.
  repeat split;
    try (apply lower_monotone); try (apply plain_monotone).
  - intros before content after H.
    unfold test_pre_and_post_checklists_exist in *.
    apply andb_true_iff in H. destruct H as [H1 H2].
    rewrite !contains_lower_embedded by assumption. reflexivity.
  - intros before content after H. apply contains_embedded, H.
  - intros before content after H.
    unfold test_condensed_has_core_phases in *.
    rewrite forallb_forall in *. intros p Hp. specialize (H p Hp).
    apply orb_true_iff in H. apply orb_true_iff.
    destruct H as [H|H]; [left|right]; apply contains_embedded, H.
  - intros before content after H.
    unfold test_condensed_has_chain_of_thought in *.
    apply orb_true_iff in H. apply orb_true_iff.
    destruct H as [H|H]; [left|right]; apply contains_embedded, H.
  - intros before content after H.
    unfold test_condensed_has_code_generation in *.
    apply orb_true_iff in H. apply orb_true_iff.
    destruct H as [H|H];
      [left; apply contains_embedded, H
      |right; apply contains_lower_embedded, H].
  - intros before content after H.
    unfold test_condensed_has_self_correction in *.
    rewrite existsb_exists in *. destruct H as (t & Ht & H).
    exists t. split; [exact Ht|]. apply contains_embedded, H.
Qed.

(** X16. The first alternative of the code-generation check is covered by the
    second: the check is the search for ["code generation"] in the
    lower-cased document. *)
Theorem code_generation_check_is_lowercase_search (content : str) :
  test_condensed_has_code_generation content =
  contains (lit "code generation") (lower content).
Proof.
  unfold test_condensed_has_code_generation.
  destruct (contains (lit "Code Generation") content) eqn:E; [|reflexivity].
  apply contains_lower in E. cbn [orb]. symmetry. exact E.
Qed.

End CoverageExtra.

(** ** Properties of the internal-link check *)

Module InternalLinksFacts.
Import Re Links Coverage CoverageFacts InternalLinks.

Example internal_links_example :
  internal_links (lit "see [Core Phases](#core-phases), [x](y), [](#z) [t](#)") =
  [ (lit "Core Phases", lit "core-phases") ].
Proof. reflexivity. Qed.

Lemma match_anchor_contained s text anchor n :
  internal_link_match_at s = Some (text, anchor, n) ->
  contains anchor s = true.
Proof.
  unfold internal_link_match_at. destruct s as [|o s1]; [discriminate|].
  destruct (is_lbracket o); [|discriminate].
  pose proof (take_drop_while not_rbracket s1) as H1.
  destruct (take_while not_rbracket s1) as [|t0 t]; [discriminate|].
  destruct (drop_while not_rbracket s1) as [|c0 [|p [|h s2]]];
    try discriminate.
  destruct (is_lparen p && is_hash h)%bool; [|discriminate].
  pose proof (take_drop_while not_rparen s2) as H2.
  destruct (take_while not_rparen s2) as [|a0 a]; [discriminate|].
  destruct (drop_while not_rparen s2) as [|c1 rest]; [discriminate|].
  intros [= <- <- <-].
  rewrite <- H1, <- H2.
  replace (o :: (t0 :: t) ++ c0 :: p :: h :: (a0 :: a) ++ c1 :: rest)
    with ((o :: (t0 :: t) ++ [c0; p; h]) ++ (a0 :: a) ++ c1 :: rest)
    by (cbn [app]; rewrite <- app_assoc; reflexivity).
  apply contains_mid.
Qed.

Lemma finditer_anchors_contained s : forall skip,
  Forall (fun m : str * str => contains (snd m) s = true)
         (finditer_from skip s).
Proof.
  induction s as [|c s IH]; intros skip; cbn [finditer_from]; [constructor|].
  assert (Hup : forall k,
    Forall (fun m : str * str => contains (snd m) (c :: s) = true)
           (finditer_from k s)).
  { intros k. eapply Forall_impl; [apply IH|].
    intros m. apply contains_cons. }
  destruct skip; [|apply Hup].
  destruct (internal_link_match_at (c :: s)) as [[[text anchor] n]|] eqn:E;
    [|apply Hup].
  constructor; [|apply Hup]. exact (match_anchor_contained _ _ _ _ E).
Qed.

Lemma dashes_to_spaces_none anchor :
  has_dash anchor = false -> dashes_to_spaces anchor = anchor.
Proof.
  unfold has_dash, dashes_to_spaces. induction anchor as [|c a IH];
    [reflexivity|].
  cbn [existsb map]. intros H. apply orb_false_iff in H. destruct H as [Hc Ha].
  rewrite Hc, IH by exact Ha. reflexivity.
Qed.

(** X17. Only anchors with a dash can be reported: the link itself puts its
    anchor in the document, so an anchor without a dash is always found. *)
Theorem broken_anchor_has_dash (files : list (str * str)) :
  Forall (fun e => has_dash (bl_anchor e) = true) (broken_links files).
Proof.
  unfold broken_links. apply Forall_flat_map.
  apply Forall_forall. intros f _.
  unfold file_broken_links. apply Forall_flat_map.
  pose proof (finditer_anchors_contained (snd f) 0) as H.
  eapply Forall_impl; [exact H|].
  intros [text anchor] Hc. cbn [fst snd] in *.
  destruct (has_dash anchor) eqn:Hd.
  - destruct (negb _); repeat constructor. exact Hd.
  - rewrite (dashes_to_spaces_none anchor Hd).
    rewrite (contains_lower _ _ Hc). constructor.
Qed.

End InternalLinksFacts.

(** ** Properties of the blank-line check *)

Module BlankLinesFacts.
Import Coverage CoverageFacts BlankLines.
Import CodeChecksFacts.

Lemma contains_rest_of_line (l rest : str) :
  no_nl l ->
  contains four_newlines (l ++ nl :: rest) =
  contains four_newlines (nl :: rest).
Proof.
  induction 1 as [|c l Hc _ IH]; [reflexivity|].
  cbn [app]. rewrite <- IH.
  change (contains four_newlines (c :: l ++ nl :: rest))
    with (startswith four_newlines (c :: l ++ nl :: rest)
          || contains four_newlines (l ++ nl :: rest))%bool.
  replace (startswith four_newlines (c :: l ++ nl :: rest)) with false;
    [reflexivity|].
  unfold four_newlines. cbn [startswith].
  destruct (Ascii.eqb nl c) eqn:E; [|reflexivity].
  apply Ascii.eqb_eq in E. subst c. discriminate Hc.
Qed.

Lemma contains_no_nl (l : str) : no_nl l -> contains four_newlines l = false.
Proof.
  induction 1 as [|c l Hc _ IH]; [reflexivity|].
  cbn [contains]. rewrite IH, orb_false_r.
  unfold four_newlines. cbn [startswith].
  destruct (Ascii.eqb nl c) eqn:E; [|reflexivity].
  apply Ascii.eqb_eq in E. subst c. discriminate Hc.
Qed.

(** A joined text starts with a newline when its first line is empty and
    another line follows. *)
Lemma join_starts_nl ls :
  Forall no_nl ls ->
  match join_nl ls with
  | c :: rest =>
      is_nl c = true ->
      exists ls', ls = [] :: ls' /\ ls' <> [] /\ rest = join_nl ls'
  | [] => True
  end.
Proof.
  intros Hnl. destruct ls as [|l ls]; [exact I|].
  inversion Hnl as [|? ? Hl _]; subst.
  destruct ls as [|l' ls].
  - cbn [join_nl]. destruct l as [|c l]; [exact I|].
    inversion Hl as [|? ? Hc _]; subst. simpl in Hc. intros H. congruence.
  - change (join_nl (l :: l' :: ls)) with (l ++ nl :: join_nl (l' :: ls)).
    destruct l as [|c l].
    + cbn [app]. intros _. exists (l' :: ls). repeat split. discriminate.
    + cbn [app]. inversion Hl as [|? ? Hc _]; subst. simpl in Hc.
      intros H. congruence.
Qed.

Lemma startswith_nl_join k ls :
  Forall no_nl ls ->
  startswith (nl :: k) (join_nl ls) =
  match ls with
  | [] :: (_ :: _) as ls' => startswith k (join_nl ls')
  | _ => false
  end.
Proof.
  intros Hnl. pose proof (join_starts_nl ls Hnl) as H.
  destruct (join_nl ls) as [|c rest] eqn:E.
  - cbn [startswith]. destruct ls as [|[|] [|]]; try reflexivity.
    + change (join_nl ([] :: l :: l0)) with (nl :: join_nl (l :: l0)) in E.
      discriminate E.
  - cbn [startswith]. destruct (Ascii.eqb nl c) eqn:Ec.
    + apply Ascii.eqb_eq in Ec. subst c.
      destruct (H eq_refl) as (ls' & -> & Hne & ->).
      destruct ls' as [|l' ls']; [congruence|]. reflexivity.
    + destruct ls as [|[|a l] [|l' ls']]; try reflexivity.
      change (join_nl ([] :: l' :: ls')) with (nl :: join_nl (l' :: ls')) in E.
      injection E as <- _. rewrite Ascii.eqb_refl in Ec. discriminate Ec.
Qed.

Lemma startswith_step a (p : str) b (s : str) :
  startswith (a :: p) (b :: s) = if Ascii.eqb a b then startswith p s else false.
Proof. reflexivity. Qed.

Lemma startswith_three_blank ls :
  Forall no_nl ls ->
  startswith four_newlines (nl :: join_nl ls) = three_blank_then_more ls.
Proof.
  intros Hnl. unfold four_newlines.
  rewrite startswith_step, Ascii.eqb_refl.
  rewrite startswith_nl_join by exact Hnl.
  destruct ls as [|[|] [|l1 ls1]]; try reflexivity.
  inversion Hnl as [|? ? _ Hnl1]; subst.
  rewrite startswith_nl_join by exact Hnl1.
  destruct l1 as [|]; [|reflexivity].
  destruct ls1 as [|l2 ls2]; [reflexivity|].
  inversion Hnl1 as [|? ? _ Hnl2]; subst.
  rewrite startswith_nl_join by exact Hnl2.
  destruct l2 as [|]; [|reflexivity].
  destruct ls2 as [|l3 ls3]; reflexivity.
Qed.

Lemma contains_four_newlines_lines ls :
  Forall no_nl ls ->
  contains four_newlines (join_nl ls) = blank_run_inside ls.
Proof.
  induction ls as [|l ls IH]; intros Hnl; [reflexivity|].
  inversion Hnl as [|? ? Hl Hls]; subst.
  destruct ls as [|l' ls].
  - cbn [join_nl blank_run_inside three_blank_then_more orb].
    apply contains_no_nl, Hl.
  - change (join_nl (l :: l' :: ls)) with (l ++ nl :: join_nl (l' :: ls)).
    rewrite contains_rest_of_line by exact Hl.
    change (contains four_newlines (nl :: join_nl (l' :: ls)))
      with (startswith four_newlines (nl :: join_nl (l' :: ls))
            || contains four_newlines (join_nl (l' :: ls)))%bool.
    rewrite startswith_three_blank by exact Hls.
    rewrite IH by exact Hls. reflexivity.
Qed.

(** X14. The blank-line check passes exactly when in no file three empty lines
    in a row stand between two other lines; empty lines at the very start
    or at the very end of a file are not counted. *)
Theorem blank_line_check_inside_runs (files : list (str * str)) :
  test_no_multiple_blank_lines files = true <->
  forall f, In f files -> blank_run_inside (split_nl (snd f)) = false.
Proof.
  unfold test_no_multiple_blank_lines, blank_line_issues.
  rewrite Nat.eqb_eq, length_zero_iff_nil.
  assert (Hc : forall f : str * str,
            contains four_newlines (snd f) = blank_run_inside (split_nl (snd f))).
  { intros f. rewrite <- (join_split (snd f)) at 1.
    apply contains_four_newlines_lines, split_nl_no_nl. }
  induction files as [|f files IH].
  - cbn. split; [intros _ f []|reflexivity].
  - cbn [List.filter]. rewrite Hc.
    destruct (blank_run_inside (split_nl (snd f))) eqn:E.
    + cbn [map]. split; [discriminate|].
      intros H. specialize (H f (or_introl eq_refl)). congruence.
    + rewrite IH. split.
      * intros H f' [<-|Hf]; [exact E|exact (H f' Hf)].
      * intros H f' Hf. apply H. right. exact Hf.
Qed.

Example leading_blank_lines_pass :
  test_no_multiple_blank_lines [ (lit "a.md", nl :: nl :: nl :: lit "text") ]
  = true.
Proof. reflexivity. Qed.

End BlankLinesFacts.
